(** * bump: version-tag arithmetic and tag selection

    A shallow embedding of package [bump] (github.com/fergus-oakley/bump/pkg)
    together with small models of the library calls it makes (Go's [int],
    [regexp], [strings], [strconv], [fmt], [sort], facette/natsort, pkg/errors
    and the go-git repository handle), followed by the properties of the
    package that its specification states. *)

From Stdlib Require Import ZArith List String Ascii Bool Lia Permutation.
Import ListNotations.

Local Open Scope Z_scope.

(* ================================================================= *)
(** ** Go's [int] and [error] *)

Module GoInt.

(** [strconv.IntSize]: the width of [int] on the 64-bit targets. *)
Definition intSize : Z := 64.
Definition maxInt : Z := 2 ^ (intSize - 1) - 1.
Definition minInt : Z := - 2 ^ (intSize - 1).

(** Two's complement wrap-around of an arithmetic result into [int]. *)
Definition wrap (z : Z) : Z :=
  (z + 2 ^ (intSize - 1)) mod 2 ^ intSize - 2 ^ (intSize - 1).

Definition inRange (z : Z) : Prop := minInt <= z <= maxInt.

End GoInt.

Module GoError.

(** The two sentinel causes a [*strconv.NumError] carries. *)
Inductive numCause : Type := ErrSyntax | ErrRange.

(** The dynamic types an [error] value takes in this program:
    - [Error msg]: package bump's [type Error string];
    - [NumError]: [*strconv.NumError] with its [Func], [Num], [Err];
    - [withMessage cause msg]: what [errors.Wrap(cause, msg)] builds;
    - [gitError msg]: an error produced inside go-git. *)
Inductive error : Type :=
| Error (msg : string)
| NumError (Func Num : string) (Err : numCause)
| withMessage (cause : error) (msg : string)
| gitError (msg : string).

Definition numCause_eq_dec (a b : numCause) : {a = b} + {a <> b}.
Proof. decide equality. Defined.

(** [err == target] on interface values. *)
Definition error_eq_dec (a b : error) : {a = b} + {a <> b}.
Proof.
  decide equality; try apply string_dec; apply numCause_eq_dec.
Defined.

(** [errors.Wrap]: nil stays nil, anything else is annotated. *)
Definition Wrap (err : option error) (message : string) : option error :=
  match err with
  | None => None
  | Some e => Some (withMessage e message)
  end.

End GoError.

(* ================================================================= *)
(** ** [regexp]: regular expressions matched by derivatives *)

Module Regexp.

Inductive regex : Type :=
| Void
| Eps
| Lit (c : ascii)
| Class (lo hi : ascii)
| Cat (r1 r2 : regex)
| Alt (r1 r2 : regex)
| Star (r : regex).

(** [r+] *)
Definition Plus (r : regex) : regex := Cat r (Star r).

Definition inClass (lo hi c : ascii) : bool :=
  ((nat_of_ascii lo <=? nat_of_ascii c) && (nat_of_ascii c <=? nat_of_ascii hi))%nat.

Fixpoint nullable (r : regex) : bool :=
  match r with
  | Void => false
  | Eps => true
  | Lit _ => false
  | Class _ _ => false
  | Cat r1 r2 => nullable r1 && nullable r2
  | Alt r1 r2 => nullable r1 || nullable r2
  | Star _ => true
  end.

Fixpoint deriv (c : ascii) (r : regex) : regex :=
  match r with
  | Void => Void
  | Eps => Void
  | Lit d => if Ascii.eqb c d then Eps else Void
  | Class lo hi => if inClass lo hi c then Eps else Void
  | Cat r1 r2 =>
      if nullable r1
      then Alt (Cat (deriv c r1) r2) (deriv c r2)
      else Cat (deriv c r1) r2
  | Alt r1 r2 => Alt (deriv c r1) (deriv c r2)
  | Star r1 => Cat (deriv c r1) (Star r1)
  end.

(** [MatchString] of a pattern anchored with [^] and [$]: the whole text
    has to be consumed. *)
Fixpoint MatchString (r : regex) (s : string) : bool :=
  match s with
  | EmptyString => nullable r
  | String c s' => MatchString (deriv c r) s'
  end.

(** The language of a regular expression. *)
Inductive Lang : regex -> string -> Prop :=
| LEps : Lang Eps EmptyString
| LLit c : Lang (Lit c) (String c EmptyString)
| LClass lo hi c : inClass lo hi c = true -> Lang (Class lo hi) (String c EmptyString)
| LCat r1 r2 s1 s2 : Lang r1 s1 -> Lang r2 s2 -> Lang (Cat r1 r2) (s1 ++ s2)
| LAltL r1 r2 s : Lang r1 s -> Lang (Alt r1 r2) s
| LAltR r1 r2 s : Lang r2 s -> Lang (Alt r1 r2) s
| LStarNil r : Lang (Star r) EmptyString
| LStarApp r s1 s2 : Lang r s1 -> Lang (Star r) s2 -> Lang (Star r) (s1 ++ s2).

End Regexp.

(* ================================================================= *)
(** ** [strings] and [strconv] *)

Module Strings.

Fixpoint stripPrefix (prefix s : string) : option string :=
  match prefix, s with
  | EmptyString, _ => Some s
  | String p prefix', String c s' =>
      if Ascii.eqb p c then stripPrefix prefix' s' else None
  | String _ _, EmptyString => None
  end.

(** [strings.TrimPrefix]: [s] without the leading [prefix], or [s] itself. *)
Definition TrimPrefix (s prefix : string) : string :=
  match stripPrefix prefix s with
  | Some rest => rest
  | None => s
  end.

(** [strings.Split] with a one-byte separator: the pieces between the
    separators, one more than there are separators. *)
Fixpoint Split (s : string) (sep : ascii) : list string :=
  match s with
  | EmptyString => [EmptyString]
  | String c s' =>
      if Ascii.eqb c sep then EmptyString :: Split s' sep
      else match Split s' sep with
           | piece :: pieces => String c piece :: pieces
           | [] => [String c EmptyString]
           end
  end.

End Strings.

Module Strconv.
Import GoInt GoError.

Definition isDigit (c : ascii) : bool :=
  ((48 <=? nat_of_ascii c) && (nat_of_ascii c <=? 57))%nat.

Definition digitVal (c : ascii) : Z := Z.of_nat (nat_of_ascii c) - 48.

(** The accumulation loop [n = n*10 + int(ch)], over unbounded integers;
    [None] on a byte that is not a decimal digit. *)
Fixpoint parseDigits (s : string) (n : Z) : option Z :=
  match s with
  | EmptyString => Some n
  | String ch s' =>
      if isDigit ch then parseDigits s' (n * 10 + digitVal ch) else None
  end.

(** The sign in front of the digits, if there is one, and the rest. *)
Definition splitSign (s : string) : bool * string :=
  match s with
  | String "-" rest => (true, rest)
  | String "+" rest => (false, rest)
  | _ => (false, s)
  end.

(** [strconv.Atoi]: an optional sign, then at least one decimal digit;
    [ErrSyntax] otherwise, [ErrRange] (with the nearest bound) when the
    value does not fit [int]. *)
Definition Atoi (s : string) : Z * option error :=
  let syntaxError := (0, Some (NumError "Atoi" s ErrSyntax)) in
  let '(neg, body) := splitSign s in
  match body with
  | EmptyString => syntaxError
  | _ =>
      match parseDigits body 0 with
      | None => syntaxError
      | Some n =>
          let v := if neg then - n else n in
          if v >? maxInt then (maxInt, Some (NumError "Atoi" s ErrRange))
          else if v <? minInt then (minInt, Some (NumError "Atoi" s ErrRange))
          else (v, None)
      end
  end.

End Strconv.

(* ================================================================= *)
(** ** [fmt]: the [%d] verb *)

Module Fmt.

Definition digitChar (d : Z) : ascii := ascii_of_nat (Z.to_nat (48 + d)).

(** The decimal loop of [fmtInteger]: digits are written right to left,
    [for u >= 10 { next := u / 10; buf[i] = '0' + u - next*10; u = next }],
    then the leading digit.  [fuel] bounds the iterations as the fixed
    buffer of the formatter does. *)
Fixpoint fmtDigits (fuel : nat) (u : Z) (buf : string) : string :=
  match fuel with
  | O => buf
  | S fuel' =>
      if 10 <=? u
      then fmtDigits fuel' (u / 10) (String (digitChar (u - (u / 10) * 10)) buf)
      else String (digitChar u) buf
  end.

(** [%d] of an [int]: the magnitude in decimal, [-] in front when negative.
    A 64-bit magnitude has at most 20 digits. *)
Definition fmtInteger (n : Z) : string :=
  let negative := n <? 0 in
  let u := if negative then - n else n in
  let digits := fmtDigits 20 u EmptyString in
  if negative then String "-" digits else digits.

End Fmt.

(* ================================================================= *)
(** ** [sort] and github.com/facette/natsort *)

Module Sort.

Section Insertion.
Context {A : Type} (less : A -> A -> bool).

(** The inner loop of [insertionSort],
    [for j := i; j > a && less(data[j], data[j-1]); j-- { swap(j, j-1) }],
    on the already sorted prefix held last element first. *)
Fixpoint sink (x : A) (revPrefix : list A) : list A :=
  match revPrefix with
  | [] => [x]
  | y :: rest => if less x y then y :: sink x rest else x :: y :: rest
  end.

(** [insertionSort]: what [sort.Sort] runs on a short slice. *)
Definition insertionSort (data : list A) : list A :=
  rev (fold_left (fun revPrefix x => sink x revPrefix) data []).

(** The requirement the documentation of [sort.Interface] puts on
    [Less]: a transitive ordering, both for its true and for its false
    answers, here on the elements of [l]. *)
Definition transitiveLess (l : list A) : Prop :=
  forall x y z, In x l -> In y l -> In z l ->
    (less x y = true -> less y z = true -> less x z = true) /\
    (less x y = false -> less y z = false -> less x z = false).

(** [x] may stand before [y]: [y] does not have to sort before [x],
    unless [less] also puts [x] before [y]. *)
Definition mayPrecede (x y : A) : Prop :=
  less y x = true -> less x y = true.

(** Ascending order as determined by [less]: every element may stand
    before all that follow it. *)
Definition ascending (l : list A) : Prop :=
  ForallOrdPairs mayPrecede l.

End Insertion.

(** What [sort.Sort] promises of its result, whichever algorithm the Go
    release at hand runs: the same elements, in ascending order. *)
Definition sorts {A : Type} (srt : (A -> A -> bool) -> list A -> list A) : Prop :=
  forall less l, transitiveLess less l ->
    Permutation l (srt less l) /\ ascending less (srt less l).

End Sort.

Module Natsort.
Import Strconv.

(** [chunkify]: all matches of [(\d+|\D+)], that is the maximal runs of
    digits and of non-digits, in order. *)
Fixpoint chunkify (s : string) : list string :=
  match s with
  | EmptyString => []
  | String c s' =>
      match chunkify s' with
      | (String d _ as chunk) :: chunks =>
          if Bool.eqb (isDigit c) (isDigit d)
          then String c chunk :: chunks
          else String c EmptyString :: chunk :: chunks
      | chunks => String c EmptyString :: chunks
      end
  end.

(** The loop of [Compare] over the chunks of both strings, from chunk [i]
    on: [chunksA] and [chunksB] are what is left of the two chunk lists. *)
Fixpoint compareChunks (chunksA chunksB : list string) : bool :=
  match chunksA, chunksB with
  | [], _ => false
  | _ :: _, [] => false
  | a :: restA, b :: restB =>
      let continue :=
        match restA, restB with
        | [], _ => true
        | _ :: _, [] => false
        | _ :: _, _ :: _ => compareChunks restA restB
        end in
      match Atoi a, Atoi b with
      | (aInt, None), (bInt, None) =>
          if aInt =? bInt then continue else aInt <? bInt
      | _, _ =>
          if String.eqb a b then continue else String.ltb a b
      end
  end.

(** [natsort.Compare]: whether [a] precedes [b] in natural order. *)
Definition Compare (a b : string) : bool :=
  compareChunks (chunkify a) (chunkify b).

End Natsort.

(* ================================================================= *)
(** ** go-git: the repository handle *)

Module Git.
Import GoError.

(** The calls the package makes on [*git.Repository], over a state [R]
    that stands for the local repository and the remote it talks to.
    Lookups return their result; [CreateTag], [Push] and [DeleteTag] also
    return the state they leave behind. *)
Class Repository (R : Type) : Type := {
  Remote : Type;
  Reference : Type;
  Hash : Type;
  (** [repo.Remote(name)] *)
  repo_Remote : R -> string -> Remote * option error;
  (** [remote.List(&git.ListOptions{})] *)
  remote_List : R -> Remote -> list Reference * option error;
  (** [r.Name().Short()] *)
  ref_Short : Reference -> string;
  (** [repo.Head()] *)
  repo_Head : R -> Reference * option error;
  (** [h.Hash()] *)
  ref_Hash : Reference -> Hash;
  (** [repo.CreateTag(name, hash, nil)] *)
  repo_CreateTag : R -> string -> Hash -> option error * R;
  (** [repo.Push] of [refs/tags/*:refs/tags/*] to [origin] *)
  repo_Push : R -> option error * R;
  (** [repo.DeleteTag(name)] *)
  repo_DeleteTag : R -> string -> option error * R
}.

(** The process around the repository: the handle and what has been
    written to standard output, one entry per line. *)
Record World (R : Type) : Type := mkWorld {
  repo : R;
  stdout : list string
}.
Arguments mkWorld {R} _ _.
Arguments repo {R} _.
Arguments stdout {R} _.

(** A repository whose every answer is laid down in advance, with a real
    store of local tags: [CreateTag] refuses a name that is taken,
    [DeleteTag] one that is absent, and each call can be made to fail. *)
Record Scripted : Type := mkScripted {
  originErr : option error;
  listing : list (string * string);
  listErr : option error;
  headErr : option error;
  headHash : string;
  localTags : list (string * string);
  createErr : option error;
  pushErr : option error;
  deleteErr : option error
}.

Definition hasTag (name : string) (tags : list (string * string)) : bool :=
  existsb (fun t => String.eqb (fst t) name) tags.

Definition scriptedCreateTag (r : Scripted) (name hash : string)
  : option error * Scripted :=
  match createErr r with
  | Some e => (Some e, r)
  | None =>
      if hasTag name (localTags r) then (Some (gitError "tag already exists"), r)
      else (None,
            mkScripted (originErr r) (listing r) (listErr r) (headErr r)
              (headHash r) (localTags r ++ [(name, hash)])
              (createErr r) (pushErr r) (deleteErr r))
  end.

Definition scriptedDeleteTag (r : Scripted) (name : string)
  : option error * Scripted :=
  match deleteErr r with
  | Some e => (Some e, r)
  | None =>
      if hasTag name (localTags r)
      then (None,
            mkScripted (originErr r) (listing r) (listErr r) (headErr r)
              (headHash r)
              (filter (fun t => negb (String.eqb (fst t) name)) (localTags r))
              (createErr r) (pushErr r) (deleteErr r))
      else (Some (gitError "tag not found"), r)
  end.

#[export] Instance scriptedRepository : Repository Scripted := {|
  Remote := unit;
  Reference := string * string;
  Hash := string;
  repo_Remote r _ := (tt, originErr r);
  remote_List r _ :=
    match listErr r with
    | Some e => ([], Some e)
    | None => (listing r, None)
    end;
  ref_Short := snd;
  repo_Head r := (("HEAD"%string, headHash r), headErr r);
  ref_Hash := snd;
  repo_CreateTag := scriptedCreateTag;
  repo_Push r := (pushErr r, r);
  repo_DeleteTag := scriptedDeleteTag
|}.

End Git.

(* ================================================================= *)
(** ** Package [bump] *)

Module Bump.
Import GoInt GoError Regexp Strings Strconv Fmt Git.

Definition ErrVersionFormat : error :=
  Error "error: version string formatted incorrectly".
Definition ErrNoTagsFound : error :=
  Error "error: no tags found on remote".
Definition ErrNoVersionTagsFound : error :=
  Error "error: no tags found have expected version format".
Definition ErrCannotIncrementMajAndMin : error :=
  Error "error: pass either -minor OR -major flags, not both".

(** [majorRelease], [minorRelease] and [bugFixRelease] are named [int]
    types: integers that wrap around where the code does arithmetic. *)
Record Version : Type := mkVersion {
  majorRelease : Z;
  minorRelease : Z;
  bugFixRelease : Z
}.

(** [Version{}] *)
Definition zeroVersion : Version := mkVersion 0 0 0.

(** [[0-9]] *)
Definition digit : regex := Class "0" "9".

(** [^v[0-9]+\.[0-9]+\.[0-9]+$] *)
Definition versionPattern : regex :=
  Cat (Lit "v")
    (Cat (Plus digit) (Cat (Lit ".") (Cat (Plus digit) (Cat (Lit ".") (Plus digit))))).

Definition validateVersionFormat (version : string) : option error :=
  if negb (MatchString versionPattern version) then Some ErrVersionFormat
  else None.

(** The loop of [CastToVersion] over the split pieces; [intElements] is
    the slice built so far. *)
Fixpoint atoiEach (stringElements : list string) (intElements : list Z)
  : list Z * option error :=
  match stringElements with
  | [] => (intElements, None)
  | s :: rest =>
      match Atoi s with
      | (_, Some err) => (intElements, Some err)
      | (i, None) => atoiEach rest (intElements ++ [i])
      end
  end.

(** Indexing reads [0] past the end of the slice; [atoiEach_three] below
    shows that three elements are there whenever the last line runs. *)
Definition CastToVersion (version : string) : Version * option error :=
  match validateVersionFormat version with
  | Some err => (zeroVersion, Some err)
  | None =>
      let version := TrimPrefix version "v" in
      let stringElements := Split version "." in
      match atoiEach stringElements [] with
      | (_, Some err) => (zeroVersion, Some err)
      | (intElements, None) =>
          (mkVersion (nth 0 intElements 0) (nth 1 intElements 0)
             (nth 2 intElements 0), None)
      end
  end.

(** [Version.String]: [Sprintf("v%d.%d.%d", ...)] *)
Definition Version_String (v : Version) : string :=
  ("v" ++ fmtInteger (majorRelease v) ++ "." ++ fmtInteger (minorRelease v)
     ++ "." ++ fmtInteger (bugFixRelease v))%string.

Definition incrementMajor (v : Version) : Version :=
  mkVersion (wrap (majorRelease v + 1)) 0 0.

Definition incrementMinor (v : Version) : Version :=
  mkVersion (majorRelease v) (wrap (minorRelease v + 1)) 0.

Definition incrementBugFix (v : Version) : Version :=
  mkVersion (majorRelease v) (minorRelease v) (wrap (bugFixRelease v + 1)).

Definition incrementVersion (latestVersion : Version) (major minor : bool)
  : Version * option error :=
  let incrementedVersion := latestVersion in
  if major && minor then (latestVersion, Some ErrCannotIncrementMajAndMin)
  else if major then (incrementMajor incrementedVersion, None)
  else if minor then (incrementMinor incrementedVersion, None)
  else (incrementBugFix incrementedVersion, None).

Section Selector.
(** [sort.Sort], applied to a [Less] and a slice. *)
Variable sort_Sort : (string -> string -> bool) -> list string -> list string.

(** [natsort.Sort] *)
Definition natsort_Sort (l : list string) : list string :=
  sort_Sort Natsort.Compare l.

Definition getLatestVersionTag (tagList : list string)
  : Version * option error :=
  let versionList :=
    filter (fun t => match validateVersionFormat t with
                     | None => true
                     | Some _ => false
                     end) tagList in
  match versionList with
  | [] => (zeroVersion, Some ErrNoVersionTagsFound)
  | _ :: _ =>
      let versionList := natsort_Sort versionList in
      let latestVersionStr := last versionList EmptyString in
      match CastToVersion latestVersionStr with
      | (_, Some err) => (zeroVersion, Some err)
      | (latestVersion, None) => (latestVersion, None)
      end
  end.
End Selector.

Section Repo.
Context {R : Type} `{Repository R}.
Variable sort_Sort : (string -> string -> bool) -> list string -> list string.

(** A computation on the process: a result and the world it leaves. *)
Definition IO (A : Type) : Type := World R -> A * World R.

Definition ret {A : Type} (a : A) : IO A := fun w => (a, w).

Definition bind {A B : Type} (m : IO A) (k : A -> IO B) : IO B :=
  fun w => let '(a, w') := m w in k a w'.

(** [fmt.Println] and [fmt.Printf] of one line. *)
Definition Println (line : string) : IO unit :=
  fun w => (tt, mkWorld (repo w) (stdout w ++ [line])).

(** A lookup on the handle, and a call that changes it. *)
Definition look {A : Type} (f : R -> A) : IO A :=
  fun w => (f (repo w), w).

Definition call {A : Type} (f : R -> A * R) : IO A :=
  fun w => let '(a, r) := f (repo w) in (a, mkWorld r (stdout w)).

Local Notation "x <- m ;; k" := (bind m (fun x => k))
  (at level 61, m at next level, right associativity).
Local Notation "m ;;; k" := (bind m (fun _ => k))
  (at level 61, right associativity).

Definition getRemoteGitTags (repo : R) : list string * option error :=
  match repo_Remote repo "origin" with
  | (_, Some err) => ([], Wrap (Some err) "unable to access remote repo")
  | (remote, None) =>
      match remote_List repo remote with
      | (_, Some err) =>
          ([], Wrap (Some err) "unable to list references from remote repo")
      | (refs, None) =>
          match refs with
          | [] => ([], Some ErrNoTagsFound)
          | _ :: _ => (map (fun r => ref_Short r) refs, None)
          end
      end
  end.

Definition tag (newTagVersion : Version) : IO (option error) :=
  Println ("new tag:  " ++ Version_String newTagVersion) ;;;
  h <- look repo_Head ;;
  match h with
  | (_, Some err) =>
      ret (Wrap (Some err) "unable to get HEAD from the opened repo")
  | (h, None) =>
      err <- call (fun r =>
               repo_CreateTag r (Version_String newTagVersion) (ref_Hash h)) ;;
      match err with
      | Some _ =>
          ret (Wrap err "unable to create tag from the repo head hash and newly created tag version number. tag may already exist locally.")
      | None =>
          Println ("new tag has been created locally (view with 'git tag -l | tail'): "
                     ++ Version_String newTagVersion) ;;;
          err <- call repo_Push ;;
          match err with
          | Some _ =>
              rollbackErr <- call (fun r =>
                  repo_DeleteTag r (Version_String newTagVersion)) ;;
              match rollbackErr with
              | Some _ =>
                  ret (Wrap rollbackErr "push local tag to remote failed, so attempted to rollback local tag. rollback local tag failed. May require manual cleanup.")
              | None => ret (Wrap err "unable to push new tag to remote repo")
              end
          | None => ret None
          end
      end
  end.

Definition BumpVersion (major minor : bool) : IO (option error) :=
  r <- look getRemoteGitTags ;;
  match r with
  | (_, Some err) =>
      ret (Wrap (Some err) "Unable to get remote git tags from the repo")
  | (tagList, None) =>
      match getLatestVersionTag sort_Sort tagList with
      | (_, Some err) =>
          if error_eq_dec err ErrNoVersionTagsFound then
            Println "no version tags found, creating new tag version: v0.0.0" ;;;
            err <- tag zeroVersion ;;
            match err with
            | Some _ => ret err
            | None => ret None
            end
          else
            ret (Wrap (Some err) "unable to get latest version tag from the tag list")
      | (latestVersionTag, None) =>
          Println ("latest version tag at remote:  "
                     ++ Version_String latestVersionTag) ;;;
          match incrementVersion latestVersionTag major minor with
          | (_, Some err) => ret (Some err)
          | (incrementedVersionTag, None) =>
              Println ("version tag incremented from "
                         ++ Version_String latestVersionTag ++ " to "
                         ++ Version_String incrementedVersionTag) ;;;
              err <- tag incrementedVersionTag ;;
              match err with
              | Some _ => ret err
              | None => ret None
              end
          end
      end
  end.
End Repo.

End Bump.

(* ================================================================= *)
(** ** Notions the properties are stated with *)

Module BumpSpec.
Import GoInt GoError Strconv Bump.

(** The component [incrementVersion] adds one to under the given flags. *)
Definition bumped (v : Version) (major minor : bool) : Z :=
  if major then majorRelease v
  else if minor then minorRelease v
  else bugFixRelease v.

Fixpoint allDigits (s : string) : bool :=
  match s with
  | EmptyString => true
  | String c s' => isDigit c && allDigits s'
  end.

(** One or more decimal digits. *)
Definition digitRun (d : string) : Prop :=
  d <> EmptyString /\ allDigits d = true.

(** The version syntax in the specification's words: a literal [v], then
    three runs of one or more decimal digits separated by [.], and
    nothing before or after. *)
Definition VersionSyntax (s : string) : Prop :=
  exists a b c : string,
    digitRun a /\ digitRun b /\ digitRun c /\
    s = ("v" ++ a ++ "." ++ b ++ "." ++ c)%string.

(** The number a run of decimal digits denotes, continuing from [n]. *)
Fixpoint digitsValue (d : string) (n : Z) : Z :=
  match d with
  | EmptyString => n
  | String ch d' => digitsValue d' (n * 10 + digitVal ch)
  end.

(** Component-wise numeric order on versions: major first, then minor,
    then bug fix. *)
Definition versionLeb (v w : Version) : bool :=
  (majorRelease v <? majorRelease w) ||
  ((majorRelease v =? majorRelease w) &&
   ((minorRelease v <? minorRelease w) ||
    ((minorRelease v =? minorRelease w) &&
     (bugFixRelease v <=? bugFixRelease w)))).

(** The text [message] contains [phrase]. *)
Definition mentions (phrase message : string) : bool :=
  match index 0 phrase message with
  | Some _ => true
  | None => false
  end.

(** All three components are non-negative and fit [int]. *)
Definition validVersion (v : Version) : Prop :=
  0 <= majorRelease v <= maxInt /\
  0 <= minorRelease v <= maxInt /\
  0 <= bugFixRelease v <= maxInt.

End BumpSpec.

Module BumpNotions.
Import GoInt GoError Strconv Bump BumpSpec.

(** A run of digits written the way [%d] writes a number: ["0"] itself,
    or no [0] in front. *)
Definition noLeadingZero (d : string) : Prop :=
  d = "0"%string \/ exists c r, d = String c r /\ c <> "0"%char.

(** The three components are values of [int]. *)
Definition intVersion (v : Version) : Prop :=
  inRange (majorRelease v) /\ inRange (minorRelease v) /\
  inRange (bugFixRelease v).

(** Whether the byte [c] occurs in [s]. *)
Fixpoint hasChar (c : ascii) (s : string) : bool :=
  match s with
  | EmptyString => false
  | String d s' => Ascii.eqb c d || hasChar c s'
  end.

(** The test [getLatestVersionTag] filters the tags with. *)
Definition passes (t : string) : bool :=
  match validateVersionFormat t with
  | None => true
  | Some _ => false
  end.

(** A sort that at least hands back the elements it was given. *)
Definition permutes (srt : (string -> string -> bool) -> list string -> list string)
  : Prop :=
  forall less l, Permutation l (srt less l).

End BumpNotions.

(* ================================================================= *)
(** * Properties *)

Import GoInt GoError Regexp Strings Strconv Fmt Git Bump BumpSpec.

(* ----------------------------------------------------------------- *)
(** ** The incrementer *)

Lemma maxInt_value : maxInt = 9223372036854775807.
Proof. reflexivity. Qed.

Lemma minInt_value : minInt = -9223372036854775808.
Proof. reflexivity. Qed.

Lemma wrap_inRange (z : Z) : inRange z -> wrap z = z.
Proof.
  unfold inRange, wrap, minInt, maxInt, intSize. intros Hz.
  change (2 ^ (64 - 1)) with 9223372036854775808 in *.
  change (2 ^ 64) with 18446744073709551616 in *.
  rewrite Z.mod_small by lia. lia.
Qed.

Lemma wrap_succ (n : Z) : minInt <= n < maxInt -> wrap (n + 1) = n + 1.
Proof.
  intros Hn. apply wrap_inRange. unfold inRange. lia.
Qed.

(** C5: with both flags set, [incrementVersion] fails with
    [ErrCannotIncrementMajAndMin] and hands back its argument unchanged. *)
Theorem incrementVersion_both_flags (v : Version) :
  incrementVersion v true true = (v, Some ErrCannotIncrementMajAndMin).
Proof. reflexivity. Qed.

(** C2, as the code has it: with at most one flag set and the component to
    increment below the largest [int], [incrementVersion] returns no error
    and (major+1, 0, 0) for the major flag, (major, minor+1, 0) for the
    minor flag, (major, minor, bugfix+1) for neither, whatever the other
    components were. *)
Theorem incrementVersion_single_flag (v : Version) (major minor : bool) :
  major && minor = false ->
  minInt <= bumped v major minor < maxInt ->
  incrementVersion v major minor =
    (if major then mkVersion (majorRelease v + 1) 0 0
     else if minor then mkVersion (majorRelease v) (minorRelease v + 1) 0
     else mkVersion (majorRelease v) (minorRelease v) (bugFixRelease v + 1),
     None).
Proof.
  intros Hflags Hb. unfold incrementVersion. rewrite Hflags.
  unfold bumped in Hb.
  destruct major; [|destruct minor];
    unfold incrementMajor, incrementMinor, incrementBugFix;
    rewrite wrap_succ by exact Hb; reflexivity.
Qed.

Lemma incrementVersion_single_flag_witness :
  incrementVersion (mkVersion 5 5 5) true false = (mkVersion 6 0 0, None) /\
  incrementVersion (mkVersion 5 5 5) false true = (mkVersion 5 6 0, None) /\
  incrementVersion (mkVersion 5 5 5) false false = (mkVersion 5 5 6, None).
Proof.
  split; [|split].
  - apply (incrementVersion_single_flag (mkVersion 5 5 5) true false);
      [reflexivity | vm_compute; split; [discriminate | reflexivity]].
  - apply (incrementVersion_single_flag (mkVersion 5 5 5) false true);
      [reflexivity | vm_compute; split; [discriminate | reflexivity]].
  - apply (incrementVersion_single_flag (mkVersion 5 5 5) false false);
      [reflexivity | vm_compute; split; [discriminate | reflexivity]].
Defined.

(** C2 as stated fails at the largest [int]: the major component of
    v9223372036854775807.0.0 wraps to the smallest [int] instead of
    growing by one. *)
Lemma incrementVersion_major_wraps :
  incrementVersion (mkVersion maxInt 0 0) true false = (mkVersion minInt 0 0, None) /\
  incrementVersion (mkVersion maxInt 0 0) true false
    <> (mkVersion (maxInt + 1) 0 0, None).
Proof.
  split; [reflexivity | vm_compute; discriminate].
Qed.

(* ----------------------------------------------------------------- *)
(** ** The selector on a list without version tags *)

Lemma selector_without_version_tags
    (sort_Sort : (string -> string -> bool) -> list string -> list string)
    (tagList : list string) :
  (forall t, In t tagList -> validateVersionFormat t <> None) ->
  getLatestVersionTag sort_Sort tagList = (zeroVersion, Some ErrNoVersionTagsFound).
Proof.
  intros Hnone. unfold getLatestVersionTag.
  assert (Hf : filter (fun t => match validateVersionFormat t with
                               | None => true
                               | Some _ => false
                               end) tagList = []).
  { induction tagList as [|t rest IH]; [reflexivity|].
    simpl. destruct (validateVersionFormat t) eqn:Ht.
    - apply IH. intros u Hu. apply Hnone. right. exact Hu.
    - exfalso. apply (Hnone t); [left; reflexivity | exact Ht]. }
  rewrite Hf. reflexivity.
Qed.

(** C6: when no tag passes [validateVersionFormat], [getLatestVersionTag]
    fails with [ErrNoVersionTagsFound], whatever [sort.Sort] would do. *)
Theorem getLatestVersionTag_no_version_tags
    (sort_Sort : (string -> string -> bool) -> list string -> list string)
    (tagList : list string) :
  (forall t, In t tagList -> validateVersionFormat t <> None) ->
  getLatestVersionTag sort_Sort tagList = (zeroVersion, Some ErrNoVersionTagsFound).
Proof. apply selector_without_version_tags. Qed.

Lemma getLatestVersionTag_no_version_tags_witness :
  getLatestVersionTag Sort.insertionSort
    ["0.0.0"; "a.b.c"; ""; "v1.2"; "1.73234.12"]%string
  = (zeroVersion, Some ErrNoVersionTagsFound) /\
  getLatestVersionTag Sort.insertionSort [""%string]
  = (zeroVersion, Some ErrNoVersionTagsFound).
Proof.
  split; apply getLatestVersionTag_no_version_tags; intros t Ht; simpl in Ht;
    repeat (destruct Ht as [<- | Ht]; [vm_compute; discriminate|]);
    destruct Ht.
Defined.

(* ----------------------------------------------------------------- *)
(** ** Strings *)

Local Open Scope string_scope.

Lemma append_nil_r (s : string) : s ++ "" = s.
Proof. induction s as [|c s IH]; simpl; [reflexivity | now rewrite IH]. Qed.

Lemma append_assoc (s1 s2 s3 : string) : (s1 ++ s2) ++ s3 = s1 ++ (s2 ++ s3).
Proof. induction s1 as [|c s1 IH]; simpl; [reflexivity | now rewrite IH]. Qed.

Lemma append_eq_nil (s1 s2 : string) : s1 ++ s2 = "" -> s1 = "" /\ s2 = "".
Proof. destruct s1; simpl; [auto | discriminate]. Qed.

Lemma append_eq_cons (s1 s2 : string) (c : ascii) (s : string) :
  s1 ++ s2 = String c s ->
  (s1 = "" /\ s2 = String c s) \/
  (exists s1', s1 = String c s1' /\ s = s1' ++ s2).
Proof.
  destruct s1 as [|d s1]; simpl; intros H.
  - left. auto.
  - right. injection H as -> <-. exists s1. auto.
Qed.

(* ----------------------------------------------------------------- *)
(** ** The matcher decides the language of its pattern *)

Lemma nullable_Lang (r : regex) : nullable r = true <-> Lang r "".
Proof.
  split.
  - induction r; simpl; intros H; try discriminate.
    + constructor.
    + apply andb_true_iff in H as [H1 H2].
      change "" with ("" ++ ""). constructor; auto.
    + apply orb_true_iff in H as [H1 | H2];
        [apply LAltL | apply LAltR]; auto.
    + constructor.
  - intros H. remember "" as s eqn:Es.
    induction H; simpl; try discriminate; try reflexivity.
    + apply append_eq_nil in Es as [-> ->].
      rewrite IHLang1, IHLang2; reflexivity.
    + rewrite IHLang by assumption. reflexivity.
    + rewrite IHLang by assumption. apply orb_true_r.
Qed.

Lemma Lang_Cat_inv (r1 r2 : regex) (s : string) :
  Lang (Cat r1 r2) s -> exists s1 s2, s = s1 ++ s2 /\ Lang r1 s1 /\ Lang r2 s2.
Proof. intros H. inversion H; subst. eauto. Qed.

Lemma Lang_Lit_inv (c : ascii) (s : string) : Lang (Lit c) s -> s = String c "".
Proof. intros H. inversion H; reflexivity. Qed.

Lemma Lang_Class_inv (lo hi : ascii) (s : string) :
  Lang (Class lo hi) s -> exists c, s = String c "" /\ inClass lo hi c = true.
Proof. intros H. inversion H; subst. eauto. Qed.

Lemma deriv_sound (c : ascii) (r : regex) :
  forall s, Lang (deriv c r) s -> Lang r (String c s).
Proof.
  induction r; simpl; intros s H.
  - inversion H.
  - inversion H.
  - destruct (Ascii.eqb c c0) eqn:E; [|inversion H].
    apply Ascii.eqb_eq in E. subst. inversion H. constructor.
  - destruct (inClass lo hi c) eqn:E; inversion H. constructor. exact E.
  - assert (Hcat : forall t, Lang (Cat (deriv c r1) r2) t ->
                             Lang (Cat r1 r2) (String c t)).
    { intros t Ht. apply Lang_Cat_inv in Ht as (s1 & s2 & -> & H1 & H2).
      change (String c (s1 ++ s2)) with (String c s1 ++ s2).
      constructor; auto. }
    destruct (nullable r1) eqn:N; [|auto].
    inversion H; subst; [auto|].
    change (String c s) with ("" ++ String c s).
    constructor; [apply nullable_Lang; exact N | auto].
  - inversion H; subst; [apply LAltL | apply LAltR]; auto.
  - apply Lang_Cat_inv in H as (s1 & s2 & -> & H1 & H2).
    change (String c (s1 ++ s2)) with (String c s1 ++ s2).
    constructor; auto.
Qed.

Lemma deriv_complete (c : ascii) (r : regex) (t : string) :
  Lang r t -> forall u, t = String c u -> Lang (deriv c r) u.
Proof.
  induction 1; intros u E; simpl; try discriminate.
  - injection E as -> <-. rewrite Ascii.eqb_refl. constructor.
  - injection E as -> <-. rewrite H. constructor.
  - apply append_eq_cons in E as [[-> ->] | (s1' & -> & ->)].
    + apply nullable_Lang in H. rewrite H. apply LAltR. auto.
    + assert (Hc : Lang (Cat (deriv c r1) r2) (s1' ++ s2))
        by (constructor; auto).
      destruct (nullable r1); [apply LAltL|]; exact Hc.
  - apply LAltL; auto.
  - apply LAltR; auto.
  - apply append_eq_cons in E as [[-> ->] | (s1' & -> & ->)].
    + apply (IHLang2 u eq_refl).
    + constructor; auto.
Qed.

Lemma MatchString_Lang (s : string) :
  forall r, MatchString r s = true <-> Lang r s.
Proof.
  induction s as [|c s IH]; intros r; simpl.
  - apply nullable_Lang.
  - rewrite IH. split; [apply deriv_sound|].
    intros H. apply (deriv_complete c r _ H s eq_refl).
Qed.

(* ----------------------------------------------------------------- *)
(** ** The language of the version pattern *)

Lemma inClass_digit (c : ascii) : inClass "0" "9" c = isDigit c.
Proof. reflexivity. Qed.

Lemma allDigits_app (s1 s2 : string) :
  allDigits (s1 ++ s2) = allDigits s1 && allDigits s2.
Proof.
  induction s1 as [|c s1 IH]; simpl; [reflexivity|].
  rewrite IH. apply andb_assoc.
Qed.

Lemma Lang_Star_digit (s : string) : Lang (Star digit) s <-> allDigits s = true.
Proof.
  split.
  - intros H. remember (Star digit) as r eqn:Er.
    induction H; try discriminate; [reflexivity|].
    injection Er as ->.
    apply Lang_Class_inv in H as (c & -> & Hc).
    rewrite inClass_digit in Hc. simpl. rewrite Hc. auto.
  - induction s as [|c s IH]; simpl; intros H; [constructor|].
    apply andb_true_iff in H as [Hc Hs].
    change (String c s) with (String c "" ++ s).
    constructor; [constructor; exact Hc | auto].
Qed.

Lemma Lang_Plus_digit (s : string) : Lang (Plus digit) s <-> digitRun s.
Proof.
  unfold Plus, digitRun. split.
  - intros H. apply Lang_Cat_inv in H as (s1 & s2 & -> & H1 & H2).
    apply Lang_Class_inv in H1 as (c & -> & Hc).
    apply Lang_Star_digit in H2. rewrite inClass_digit in Hc.
    simpl. rewrite Hc, H2. split; [discriminate | reflexivity].
  - intros [Hne Hd]. destruct s as [|c s]; [contradiction|].
    simpl in Hd. apply andb_true_iff in Hd as [Hc Hs].
    change (String c s) with (String c "" ++ s).
    constructor; [constructor; exact Hc | apply Lang_Star_digit; exact Hs].
Qed.

Lemma Lang_versionPattern (s : string) : Lang versionPattern s <-> VersionSyntax s.
Proof.
  unfold versionPattern, VersionSyntax. split.
  - intros H.
    apply Lang_Cat_inv in H as (sv & t1 & -> & Hv & H).
    apply Lang_Cat_inv in H as (a & t2 & -> & Ha & H).
    apply Lang_Cat_inv in H as (d1 & t3 & -> & Hd1 & H).
    apply Lang_Cat_inv in H as (b & t4 & -> & Hb & H).
    apply Lang_Cat_inv in H as (d2 & c & -> & Hd2 & Hc).
    apply Lang_Lit_inv in Hv, Hd1, Hd2. subst.
    apply Lang_Plus_digit in Ha, Hb, Hc.
    exists a, b, c. auto.
  - intros (a & b & c & Ha & Hb & Hc & ->).
    apply Lang_Plus_digit in Ha, Hb, Hc.
    repeat (constructor; try assumption).
Qed.

(** C3: [validateVersionFormat] returns no error exactly on the strings
    made of a literal [v] and three runs of one or more decimal digits
    separated by [.], which is the language of the pattern; on every other
    string it returns [ErrVersionFormat]. *)
Theorem validateVersionFormat_iff_syntax (s : string) :
  (validateVersionFormat s = None <-> VersionSyntax s) /\
  (validateVersionFormat s = Some ErrVersionFormat <-> ~ VersionSyntax s) /\
  (Lang versionPattern s <-> VersionSyntax s).
Proof.
  pose proof (MatchString_Lang s versionPattern) as HM.
  pose proof (Lang_versionPattern s) as HL.
  unfold validateVersionFormat.
  destruct (MatchString versionPattern s); simpl.
  - assert (Hs : VersionSyntax s) by (apply HL, HM; reflexivity).
    split; [|split]; [| |exact HL].
    + split; [intros _; exact Hs | reflexivity].
    + split; [discriminate | intros Hn; contradiction].
  - assert (Hn : ~ VersionSyntax s).
    { intros Hs. apply HL, HM in Hs. discriminate. }
    split; [|split]; [| |exact HL].
    + split; [discriminate | intros Hs; contradiction].
    + split; [intros _; exact Hn | reflexivity].
Qed.

Lemma validateVersionFormat_iff_syntax_witness :
  VersionSyntax "v143.73234.12" /\ ~ VersionSyntax "v..12".
Proof.
  split.
  - apply (proj1 (validateVersionFormat_iff_syntax "v143.73234.12")).
    reflexivity.
  - apply (proj1 (proj2 (validateVersionFormat_iff_syntax "v..12"))).
    reflexivity.
Defined.

(* ----------------------------------------------------------------- *)
(** ** Splitting and converting a version string *)

Lemma isDigit_not_dot (c : ascii) : isDigit c = true -> Ascii.eqb c "." = false.
Proof.
  intros H. destruct (Ascii.eqb_spec c "."); [subst; discriminate | reflexivity].
Qed.

Lemma Split_digits (d : string) : allDigits d = true -> Split d "." = [d].
Proof.
  induction d as [|c d IH]; simpl; intros H; [reflexivity|].
  apply andb_true_iff in H as [Hc Hd].
  rewrite (isDigit_not_dot c Hc), (IH Hd). reflexivity.
Qed.

Lemma Split_digits_dot (d rest : string) :
  allDigits d = true -> Split (d ++ String "." rest) "." = d :: Split rest ".".
Proof.
  induction d as [|c d IH]; simpl; intros H; [reflexivity|].
  apply andb_true_iff in H as [Hc Hd].
  rewrite (isDigit_not_dot c Hc), (IH Hd). reflexivity.
Qed.

Lemma Split_version (a b c : string) :
  digitRun a -> digitRun b -> digitRun c ->
  Split (TrimPrefix ("v" ++ a ++ "." ++ b ++ "." ++ c) "v") "." = [a; b; c].
Proof.
  intros [_ Ha] [_ Hb] [_ Hc].
  change (TrimPrefix ("v" ++ a ++ "." ++ b ++ "." ++ c) "v")
    with (a ++ String "." (b ++ String "." c)).
  rewrite (Split_digits_dot a _ Ha), (Split_digits_dot b _ Hb), (Split_digits c Hc).
  reflexivity.
Qed.

Lemma parseDigits_allDigits (d : string) :
  forall n, allDigits d = true -> parseDigits d n = Some (digitsValue d n).
Proof.
  induction d as [|c d IH]; simpl; intros n H; [reflexivity|].
  apply andb_true_iff in H as [Hc Hd]. rewrite Hc. apply IH, Hd.
Qed.

Lemma digitVal_bounds (c : ascii) : isDigit c = true -> 0 <= digitVal c <= 9.
Proof.
  unfold isDigit, digitVal. intros H.
  apply andb_true_iff in H as [H1 H2].
  apply Nat.leb_le in H1, H2.
  generalize dependent (nat_of_ascii c). intros k H1 H2. lia.
Qed.

Lemma digitsValue_lower (d : string) :
  forall n, 0 <= n -> allDigits d = true -> n <= digitsValue d n.
Proof.
  induction d as [|c d IH]; simpl; intros n Hn H; [lia|].
  apply andb_true_iff in H as [Hc Hd].
  pose proof (digitVal_bounds c Hc).
  assert (Hn' : 0 <= n * 10 + digitVal c) by lia.
  pose proof (IH (n * 10 + digitVal c) Hn' Hd). lia.
Qed.

Lemma splitSign_digit (c : ascii) (d : string) :
  isDigit c = true -> splitSign (String c d) = (false, String c d).
Proof.
  destruct c as [[] [] [] [] [] [] [] []]; intros H;
    try discriminate H; reflexivity.
Qed.

(** [Atoi] on a run of digits: its value, or [ErrRange] past [maxInt]. *)
Lemma Atoi_digitRun (d : string) :
  digitRun d ->
  Atoi d = if digitsValue d 0 >? maxInt
           then (maxInt, Some (NumError "Atoi" d ErrRange))
           else (digitsValue d 0, None).
Proof.
  intros [Hne Hd]. destruct d as [|c d]; [contradiction|].
  pose proof (digitsValue_lower (String c d) 0 (Z.le_refl 0) Hd) as Hpos.
  assert (Hc : isDigit c = true).
  { simpl in Hd. apply andb_true_iff in Hd as [Hc _]. exact Hc. }
  unfold Atoi.
  rewrite (splitSign_digit c d Hc).
  rewrite (parseDigits_allDigits (String c d) 0 Hd).
  destruct (digitsValue (String c d) 0 >? maxInt); [reflexivity|].
  assert (Hlt : (digitsValue (String c d) 0 <? minInt)%Z = false).
  { apply Z.ltb_ge. rewrite minInt_value. lia. }
  rewrite Hlt. reflexivity.
Qed.

Lemma atoiEach_length (l : list string) :
  forall acc ints, atoiEach l acc = (ints, None) ->
                   List.length ints = (List.length acc + List.length l)%nat.
Proof.
  induction l as [|s l IH]; simpl; intros acc ints H.
  - injection H as <-. lia.
  - destruct (Atoi s) as [i [e|]]; [discriminate|].
    apply IH in H. rewrite List.length_app in H. simpl in H. lia.
Qed.

Lemma validateVersionFormat_syntax (s : string) :
  validateVersionFormat s = None -> VersionSyntax s.
Proof.
  unfold validateVersionFormat.
  destruct (MatchString versionPattern s) eqn:E; [|discriminate].
  intros _. apply Lang_versionPattern, MatchString_Lang, E.
Qed.

Lemma syntax_validateVersionFormat (s : string) :
  VersionSyntax s -> validateVersionFormat s = None.
Proof.
  intros H. apply Lang_versionPattern, MatchString_Lang in H.
  unfold validateVersionFormat. rewrite H. reflexivity.
Qed.

(** The slice [intElements] holds three numbers whenever [CastToVersion]
    comes to index it. *)
Lemma atoiEach_three (s : string) (ints : list Z) :
  validateVersionFormat s = None ->
  atoiEach (Split (TrimPrefix s "v") ".") [] = (ints, None) ->
  List.length ints = 3%nat.
Proof.
  intros Hv H. apply validateVersionFormat_syntax in Hv.
  destruct Hv as (a & b & c & Ha & Hb & Hc & ->).
  rewrite (Split_version a b c Ha Hb Hc) in H.
  apply atoiEach_length in H. exact H.
Qed.

Lemma atoiEach_first_error (pre : list string) (p : string) (post : list string)
    (e : error) :
  Forall (fun q => snd (Atoi q) = None) pre ->
  snd (Atoi p) = Some e ->
  forall acc, snd (atoiEach (pre ++ p :: post) acc) = Some e.
Proof.
  intros Hpre Hp. induction Hpre as [|q pre Hq _ IH]; intros acc; simpl.
  - destruct (Atoi p) as [i [e'|]]; simpl in *; [exact Hp | discriminate].
  - destruct (Atoi q) as [i [e'|]]; simpl in *; [discriminate | apply IH].
Qed.

Lemma CastToVersion_valid (s : string) :
  validateVersionFormat s = None ->
  CastToVersion s =
    match atoiEach (Split (TrimPrefix s "v") ".") [] with
    | (_, Some err) => (zeroVersion, Some err)
    | (ints, None) =>
        (mkVersion (nth 0 ints 0) (nth 1 ints 0) (nth 2 ints 0), None)
    end.
Proof. intros H. unfold CastToVersion. rewrite H. reflexivity. Qed.

(** C7: [CastToVersion] hands on the error of [validateVersionFormat] as it
    is; on a string the validator accepts, the first piece [strconv.Atoi]
    refuses makes it fail with that conversion error, a range error of
    [strconv] and not [ErrVersionFormat]. *)
Theorem CastToVersion_errors (s : string) :
  (forall e, validateVersionFormat s = Some e ->
             CastToVersion s = (zeroVersion, Some e)) /\
  (validateVersionFormat s = None ->
   forall (pre : list string) (p : string) (post : list string) (e : error),
     Split (TrimPrefix s "v") "." = (pre ++ p :: post)%list ->
     Forall (fun q => snd (Atoi q) = None) pre ->
     snd (Atoi p) = Some e ->
     CastToVersion s = (zeroVersion, Some e) /\
     e = NumError "Atoi" p ErrRange /\
     e <> ErrVersionFormat).
Proof.
  split.
  - intros e He. unfold CastToVersion. rewrite He. reflexivity.
  - intros Hv pre p post e Hsplit Hpre Hp.
    assert (He : e = NumError "Atoi" p ErrRange).
    { destruct (validateVersionFormat_syntax s Hv)
        as (a & b & c & Ha & Hb & Hc & ->).
      rewrite (Split_version a b c Ha Hb Hc) in Hsplit.
      assert (Hin : In p [a; b; c]).
      { rewrite Hsplit. apply in_or_app. right. left. reflexivity. }
      assert (Hrun : digitRun p).
      { simpl in Hin. destruct Hin as [<- | [<- | [<- | []]]]; assumption. }
      rewrite (Atoi_digitRun p Hrun) in Hp.
      destruct (digitsValue p 0 >? maxInt); simpl in Hp; [|discriminate].
      injection Hp as <-. reflexivity. }
    split; [|split]; [| exact He | rewrite He; discriminate].
    rewrite (CastToVersion_valid s Hv), Hsplit.
    pose proof (atoiEach_first_error pre p post e Hpre Hp []) as Herr.
    destruct (atoiEach (pre ++ p :: post) []) as [ints [e'|]];
      simpl in Herr; [|discriminate].
    injection Herr as ->. reflexivity.
Qed.

Lemma CastToVersion_errors_witness :
  CastToVersion "a.b.c" = (zeroVersion, Some ErrVersionFormat) /\
  CastToVersion "v1.99999999999999999999.0"
  = (zeroVersion, Some (NumError "Atoi" "99999999999999999999" ErrRange)).
Proof.
  split.
  - apply (proj1 (CastToVersion_errors "a.b.c")). reflexivity.
  - assert (Hv : validateVersionFormat "v1.99999999999999999999.0" = None)
      by reflexivity.
    assert (Hsplit : Split (TrimPrefix "v1.99999999999999999999.0" "v") "."
                     = (["1"] ++ "99999999999999999999" :: ["0"])%list)
      by reflexivity.
    assert (Hpre : Forall (fun q => snd (Atoi q) = None) ["1"]).
    { constructor; [reflexivity | constructor]. }
    assert (Hp : snd (Atoi "99999999999999999999")
                 = Some (NumError "Atoi" "99999999999999999999" ErrRange))
      by reflexivity.
    exact (proj1 (proj2 (CastToVersion_errors "v1.99999999999999999999.0")
                    Hv ["1"] "99999999999999999999" ["0"] _ Hsplit Hpre Hp)).
Defined.

(* ----------------------------------------------------------------- *)
(** ** Printing a version and reading it back *)

Lemma digitChar_digit (d : Z) :
  0 <= d <= 9 -> isDigit (digitChar d) = true /\ digitVal (digitChar d) = d.
Proof.
  intros H.
  assert (Hd : d = 0 \/ d = 1 \/ d = 2 \/ d = 3 \/ d = 4 \/
               d = 5 \/ d = 6 \/ d = 7 \/ d = 8 \/ d = 9) by lia.
  repeat (destruct Hd as [-> | Hd]; [split; reflexivity|]).
  subst. split; reflexivity.
Qed.

Lemma last_digit_bounds (u : Z) : 0 <= u -> 0 <= u - u / 10 * 10 <= 9.
Proof.
  intros Hu. pose proof (Z.div_mod u 10). pose proof (Z.mod_pos_bound u 10). lia.
Qed.

Lemma fmtDigits_app (fuel : nat) :
  forall u buf, fmtDigits fuel u buf = fmtDigits fuel u "" ++ buf.
Proof.
  induction fuel as [|fuel IH]; intros u buf; simpl; [reflexivity|].
  destruct (10 <=? u)%Z; [|reflexivity].
  rewrite (IH (u / 10) (String _ buf)), (IH (u / 10) (String _ "")).
  rewrite append_assoc. reflexivity.
Qed.

Lemma digitsValue_app (s1 s2 : string) :
  forall n, digitsValue (s1 ++ s2) n = digitsValue s2 (digitsValue s1 n).
Proof.
  induction s1 as [|c s1 IH]; simpl; intros n; [reflexivity | apply IH].
Qed.

Lemma fmtDigits_allDigits (fuel : nat) :
  forall u, 0 <= u -> allDigits (fmtDigits fuel u "") = true.
Proof.
  induction fuel as [|fuel IH]; intros u Hu; simpl; [reflexivity|].
  destruct (10 <=? u)%Z eqn:E.
  - rewrite fmtDigits_app, allDigits_app.
    rewrite IH by (apply Z.div_pos; lia). simpl.
    destruct (digitChar_digit _ (last_digit_bounds u Hu)) as [-> _].
    reflexivity.
  - apply Z.leb_gt in E. simpl.
    assert (H09 : 0 <= u <= 9) by lia.
    destruct (digitChar_digit u H09) as [-> _]. reflexivity.
Qed.

Lemma fmtDigits_nonempty (fuel : nat) (u : Z) :
  fmtDigits (S fuel) u "" <> "".
Proof.
  simpl. destruct (10 <=? u)%Z; [|discriminate].
  rewrite fmtDigits_app. intros H.
  apply append_eq_nil in H as [_ H]. discriminate.
Qed.

Lemma fmtDigits_value (fuel : nat) :
  forall u, 0 <= u < 10 ^ Z.of_nat fuel ->
            digitsValue (fmtDigits fuel u "") 0 = u.
Proof.
  induction fuel as [|fuel IH]; intros u Hu.
  - simpl in *. lia.
  - rewrite Nat2Z.inj_succ, Z.pow_succ_r in Hu by lia.
    simpl. destruct (10 <=? u)%Z eqn:E.
    + rewrite fmtDigits_app, digitsValue_app.
      rewrite IH.
      * simpl. destruct (digitChar_digit _ (last_digit_bounds u (proj1 Hu)))
          as [_ ->]. lia.
      * split; [apply Z.div_pos; lia|].
        apply Z.div_lt_upper_bound; lia.
    + apply Z.leb_gt in E. simpl.
      assert (H09 : 0 <= u <= 9) by lia.
      destruct (digitChar_digit u H09) as [_ ->]. reflexivity.
Qed.

(** [%d] of a non-negative [int] is a run of digits that reads back as the
    same number. *)
Lemma fmtInteger_digitRun (n : Z) :
  0 <= n <= maxInt ->
  digitRun (fmtInteger n) /\ digitsValue (fmtInteger n) 0 = n.
Proof.
  intros Hn. unfold fmtInteger.
  assert (Hneg : (n <? 0)%Z = false) by (apply Z.ltb_ge; lia).
  rewrite Hneg. split; [split|].
  - apply fmtDigits_nonempty.
  - apply fmtDigits_allDigits. lia.
  - apply fmtDigits_value. rewrite maxInt_value in Hn.
    change (10 ^ Z.of_nat 20) with 100000000000000000000. lia.
Qed.

Lemma Atoi_fmtInteger (n : Z) :
  0 <= n <= maxInt -> Atoi (fmtInteger n) = (n, None).
Proof.
  intros Hn. destruct (fmtInteger_digitRun n Hn) as [Hrun Hval].
  rewrite (Atoi_digitRun _ Hrun), Hval.
  assert (Hgt : (n >? maxInt)%Z = false)
    by (rewrite Z.gtb_ltb; apply Z.ltb_ge; lia).
  rewrite Hgt. reflexivity.
Qed.

(** C4: a version with non-negative components inside the range of [int]
    is what [CastToVersion] returns, without error, on its [String()]. *)
Theorem CastToVersion_String_roundtrip (v : Version) :
  validVersion v -> CastToVersion (Version_String v) = (v, None).
Proof.
  intros (Hmaj & Hmin & Hbug). destruct v as [mj mn bf]. simpl in *.
  destruct (fmtInteger_digitRun mj Hmaj) as [Ha _].
  destruct (fmtInteger_digitRun mn Hmin) as [Hb _].
  destruct (fmtInteger_digitRun bf Hbug) as [Hc _].
  unfold Version_String. simpl majorRelease. simpl minorRelease.
  simpl bugFixRelease.
  rewrite CastToVersion_valid.
  - rewrite (Split_version _ _ _ Ha Hb Hc). simpl.
    rewrite (Atoi_fmtInteger mj Hmaj), (Atoi_fmtInteger mn Hmin),
      (Atoi_fmtInteger bf Hbug). reflexivity.
  - apply syntax_validateVersionFormat.
    exists (fmtInteger mj), (fmtInteger mn), (fmtInteger bf). auto.
Qed.

Lemma CastToVersion_String_roundtrip_witness :
  Version_String (mkVersion 143 73234 12) = "v143.73234.12" /\
  CastToVersion (Version_String (mkVersion 143 73234 12))
  = (mkVersion 143 73234 12, None) /\
  CastToVersion (Version_String (mkVersion maxInt 0 maxInt))
  = (mkVersion maxInt 0 maxInt, None).
Proof.
  split; [reflexivity | split].
  - apply (CastToVersion_String_roundtrip (mkVersion 143 73234 12)).
    vm_compute. repeat split; discriminate.
  - apply (CastToVersion_String_roundtrip (mkVersion maxInt 0 maxInt)).
    vm_compute. repeat split; discriminate.
Defined.

(* ----------------------------------------------------------------- *)
(** ** Insertion sort meets the contract of [sort.Sort] *)

Section OrderedPairs.
Context {A : Type}.

Lemma FOP_snoc (R : A -> A -> Prop) (l : list A) (a : A) :
  ForallOrdPairs R l -> Forall (fun x => R x a) l ->
  ForallOrdPairs R (l ++ [a])%list.
Proof.
  induction 1 as [|b l Hb Hl IH]; intros Ha; simpl.
  - repeat constructor.
  - inversion Ha; subst. constructor; [|auto].
    apply Forall_app. split; [exact Hb | repeat constructor; assumption].
Qed.

Lemma FOP_snoc_inv (R : A -> A -> Prop) (l : list A) (a : A) :
  ForallOrdPairs R (l ++ [a])%list -> Forall (fun x => R x a) l.
Proof.
  induction l as [|b l IH]; simpl; intros H; [constructor|].
  inversion H; subst. constructor; [|auto].
  match goal with
  | [ Hb : Forall (R b) _ |- _ ] =>
      apply Forall_app in Hb as [_ Hb]; inversion Hb; assumption
  end.
Qed.

Lemma FOP_rev (R : A -> A -> Prop) (l : list A) :
  ForallOrdPairs (fun x y => R y x) l -> ForallOrdPairs R (rev l).
Proof.
  induction 1 as [|b l Hb Hl IH]; simpl; [constructor|].
  apply FOP_snoc; [exact IH|].
  apply Forall_rev. exact Hb.
Qed.
End OrderedPairs.

Section InsertionSorts.
Context {A : Type} (less : A -> A -> bool).

Lemma sink_perm (x : A) (revPrefix : list A) :
  Permutation (x :: revPrefix) (Sort.sink less x revPrefix).
Proof.
  induction revPrefix as [|y rest IH]; simpl; [reflexivity|].
  destruct (less x y); [|reflexivity].
  rewrite perm_swap. constructor. exact IH.
Qed.

Lemma fold_sink_perm (data : list A) :
  forall revPrefix,
    Permutation (data ++ revPrefix)%list
      (fold_left (fun p x => Sort.sink less x p) data revPrefix).
Proof.
  induction data as [|x data IH]; intros revPrefix; simpl; [reflexivity|].
  rewrite <- IH. rewrite <- sink_perm. apply Permutation_middle.
Qed.

Variable l : list A.
Hypothesis Htrans : Sort.transitiveLess less l.

Lemma sink_descending (x : A) (revPrefix : list A) :
  In x l -> incl revPrefix l ->
  ForallOrdPairs (fun y z => Sort.mayPrecede less z y) revPrefix ->
  ForallOrdPairs (fun y z => Sort.mayPrecede less z y)
    (Sort.sink less x revPrefix).
Proof.
  intros Hx. induction revPrefix as [|y rest IH]; intros Hincl Hfop; simpl.
  - repeat constructor.
  - inversion Hfop as [|y' rest' Hy Hrest]; subst.
    assert (Hyl : In y l) by (apply Hincl; left; reflexivity).
    assert (Hrl : incl rest l)
      by (intros z Hz; apply Hincl; right; exact Hz).
    destruct (less x y) eqn:Exy.
    + constructor; [|apply IH; assumption].
      apply (Permutation_Forall (sink_perm x rest)).
      constructor; [|exact Hy].
      intros _. exact Exy.
    + constructor; [|exact Hfop].
      constructor; [intros Hxy; congruence|].
      rewrite Forall_forall in Hy |- *. intros z Hz Hxz.
      assert (Hzl : In z l) by (apply Hrl; exact Hz).
      destruct (less z x) eqn:Ezx; [reflexivity | exfalso].
      assert (Ezy : less z y = false)
        by (apply (proj2 (Htrans z x y Hzl Hx Hyl)); assumption).
      assert (Eyz : less y z = false).
      { destruct (less y z) eqn:Eyz; [|reflexivity].
        rewrite (Hy z Hz Eyz) in Ezy. discriminate. }
      assert (Exz : less x z = false)
        by (apply (proj2 (Htrans x y z Hx Hyl Hzl)); assumption).
      congruence.
Qed.

Lemma fold_sink_descending (data : list A) :
  forall revPrefix,
    incl data l -> incl revPrefix l ->
    ForallOrdPairs (fun y z => Sort.mayPrecede less z y) revPrefix ->
    ForallOrdPairs (fun y z => Sort.mayPrecede less z y)
      (fold_left (fun p x => Sort.sink less x p) data revPrefix).
Proof.
  induction data as [|x data IH]; intros revPrefix Hd Hp Hfop; simpl;
    [exact Hfop|].
  assert (Hx : In x l) by (apply Hd; left; reflexivity).
  apply IH.
  - intros z Hz. apply Hd. right. exact Hz.
  - intros z Hz.
    apply (Permutation_in z (Permutation_sym (sink_perm x revPrefix))) in Hz.
    destruct Hz as [<- | Hz]; [exact Hx | apply Hp; exact Hz].
  - apply sink_descending; assumption.
Qed.
End InsertionSorts.

Lemma insertionSort_sorts (A : Type) : Sort.sorts (@Sort.insertionSort A).
Proof.
  intros less l Htrans. unfold Sort.insertionSort. split.
  - rewrite <- Permutation_rev, <- fold_sink_perm, app_nil_r. reflexivity.
  - apply FOP_rev.
    apply (fold_sink_descending less l Htrans l []);
      [apply incl_refl | intros z [] | constructor].
Qed.

(* ----------------------------------------------------------------- *)
(** ** Natural order on version strings *)

Lemma chunkify_head (c : ascii) (s : string) :
  exists chunk chunks, Natsort.chunkify (String c s) = String c chunk :: chunks.
Proof.
  simpl. destruct (Natsort.chunkify s) as [|[|d chunk] chunks]; eauto.
  destruct (Bool.eqb (isDigit c) (isDigit d)); eauto.
Qed.

Lemma chunkify_digitRun (d : string) :
  digitRun d -> Natsort.chunkify d = [d].
Proof.
  intros [Hne Hd]. induction d as [|c d IH]; [contradiction|].
  simpl in Hd. apply andb_true_iff in Hd as [Hc Hd].
  destruct d as [|e d]; [reflexivity|].
  change (Natsort.chunkify (String c (String e d)))
    with (match Natsort.chunkify (String e d) with
          | (String d0 _ as chunk) :: chunks =>
              if Bool.eqb (isDigit c) (isDigit d0)
              then String c chunk :: chunks
              else String c "" :: chunk :: chunks
          | chunks => String c "" :: chunks
          end).
  rewrite IH by (discriminate || exact Hd).
  simpl in Hd. apply andb_true_iff in Hd as [He _].
  rewrite Hc, He. reflexivity.
Qed.

Lemma chunkify_sep (e c : ascii) (rest : string) :
  isDigit e = false -> isDigit c = true ->
  Natsort.chunkify (String e (String c rest))
  = String e "" :: Natsort.chunkify (String c rest).
Proof.
  intros He Hc.
  destruct (chunkify_head c rest) as (chunk & chunks & E).
  change (Natsort.chunkify (String e (String c rest)))
    with (match Natsort.chunkify (String c rest) with
          | (String d0 _ as chunk) :: chunks =>
              if Bool.eqb (isDigit e) (isDigit d0)
              then String e chunk :: chunks
              else String e "" :: chunk :: chunks
          | chunks => String e "" :: chunks
          end).
  rewrite E, He, Hc. reflexivity.
Qed.

Lemma chunkify_digits_sep (d : string) (e : ascii) (rest : string) :
  digitRun d -> isDigit e = false ->
  Natsort.chunkify (d ++ String e rest)
  = d :: Natsort.chunkify (String e rest).
Proof.
  intros [Hne Hd] He. induction d as [|c d IH]; [contradiction|].
  simpl in Hd. apply andb_true_iff in Hd as [Hc Hd].
  destruct (chunkify_head e rest) as (chunk & chunks & E).
  destruct d as [|c' d].
  - simpl append.
    change (Natsort.chunkify (String c (String e rest)))
      with (match Natsort.chunkify (String e rest) with
            | (String d0 _ as chunk) :: chunks =>
                if Bool.eqb (isDigit c) (isDigit d0)
                then String c chunk :: chunks
                else String c "" :: chunk :: chunks
            | chunks => String c "" :: chunks
            end).
    rewrite E, Hc, He. reflexivity.
  - change (Natsort.chunkify (String c (String c' d) ++ String e rest))
      with (match Natsort.chunkify (String c' d ++ String e rest) with
            | (String d0 _ as chunk) :: chunks =>
                if Bool.eqb (isDigit c) (isDigit d0)
                then String c chunk :: chunks
                else String c "" :: chunk :: chunks
            | chunks => String c "" :: chunks
            end).
    rewrite IH by (discriminate || exact Hd).
    simpl in Hd. apply andb_true_iff in Hd as [Hc' _].
    rewrite Hc, Hc'. reflexivity.
Qed.

Lemma chunkify_version (a b c : string) :
  digitRun a -> digitRun b -> digitRun c ->
  Natsort.chunkify ("v" ++ a ++ "." ++ b ++ "." ++ c)
  = ["v"; a; "."; b; "."; c].
Proof.
  intros Ha Hb Hc.
  assert (Hstart : forall d rest, digitRun d ->
            exists x r, d ++ rest = String x r /\ isDigit x = true).
  { intros [|x d] rest [Hne Hd]; [contradiction|].
    simpl in Hd. apply andb_true_iff in Hd as [Hx _].
    exists x, (d ++ rest). auto. }
  change ("v" ++ a ++ "." ++ b ++ "." ++ c)
    with (String "v" (a ++ String "." (b ++ String "." c))).
  destruct (Hstart a (String "." (b ++ String "." c)) Ha) as (xa & ra & Ea & Hxa).
  rewrite Ea, chunkify_sep, <- Ea by (reflexivity || exact Hxa).
  rewrite (chunkify_digits_sep a "." _ Ha eq_refl).
  destruct (Hstart b (String "." c) Hb) as (xb & rb & Eb & Hxb).
  rewrite Eb, chunkify_sep, <- Eb by (reflexivity || exact Hxb).
  rewrite (chunkify_digits_sep b "." _ Hb eq_refl).
  destruct (Hstart c "" Hc) as (xc & rc & Ec & Hxc).
  rewrite append_nil_r in Ec.
  rewrite Ec, chunkify_sep, <- Ec by (reflexivity || exact Hxc).
  rewrite (chunkify_digitRun c Hc). reflexivity.
Qed.

(** What a successful [CastToVersion] says about its argument. *)
Lemma CastToVersion_ok_inv (s : string) (v : Version) :
  CastToVersion s = (v, None) ->
  exists a b c,
    digitRun a /\ digitRun b /\ digitRun c /\
    s = "v" ++ a ++ "." ++ b ++ "." ++ c /\
    Atoi a = (majorRelease v, None) /\
    Atoi b = (minorRelease v, None) /\
    Atoi c = (bugFixRelease v, None).
Proof.
  intros H.
  destruct (validateVersionFormat s) as [e|] eqn:Hv.
  - unfold CastToVersion in H. rewrite Hv in H. discriminate.
  - rewrite (CastToVersion_valid s Hv) in H.
    destruct (validateVersionFormat_syntax s Hv)
      as (a & b & c & Ha & Hb & Hc & ->).
    rewrite (Split_version a b c Ha Hb Hc) in H. simpl in H.
    exists a, b, c.
    destruct (Atoi a) as [va [ea|]]; [discriminate|].
    destruct (Atoi b) as [vb [eb|]]; [discriminate|].
    destruct (Atoi c) as [vc [ec|]]; [discriminate|].
    simpl in H. injection H as <-. simpl. auto 10.
Qed.

Lemma compareChunks_number (a b : string) (restA restB : list string)
    (aInt bInt : Z) :
  Atoi a = (aInt, None) -> Atoi b = (bInt, None) ->
  Natsort.compareChunks (a :: restA) (b :: restB)
  = if (aInt =? bInt)%Z
    then match restA, restB with
         | [], _ => true
         | _ :: _, [] => false
         | _ :: _, _ :: _ => Natsort.compareChunks restA restB
         end
    else (aInt <? bInt)%Z.
Proof.
  intros Ha Hb. cbn [Natsort.compareChunks]. rewrite Ha, Hb. reflexivity.
Qed.

Lemma compareChunks_text (s : string) (restA restB : list string) :
  snd (Atoi s) <> None ->
  Natsort.compareChunks (s :: restA) (s :: restB)
  = match restA, restB with
    | [], _ => true
    | _ :: _, [] => false
    | _ :: _, _ :: _ => Natsort.compareChunks restA restB
    end.
Proof.
  intros Hs. cbn [Natsort.compareChunks].
  destruct (Atoi s) as [i [e|]]; [|contradiction].
  rewrite String.eqb_refl. reflexivity.
Qed.

(** On tags that [CastToVersion] accepts, [natsort.Compare] is the
    component-wise numeric order of the versions. *)
Lemma Compare_versionLeb (s t : string) (v w : Version) :
  CastToVersion s = (v, None) -> CastToVersion t = (w, None) ->
  Natsort.Compare s t = versionLeb v w.
Proof.
  intros Hs Ht.
  apply CastToVersion_ok_inv in Hs
    as (a & b & c & Ha & Hb & Hc & -> & Ea & Eb & Ec).
  apply CastToVersion_ok_inv in Ht
    as (a' & b' & c' & Ha' & Hb' & Hc' & -> & Ea' & Eb' & Ec').
  unfold Natsort.Compare.
  rewrite (chunkify_version a b c Ha Hb Hc).
  rewrite (chunkify_version a' b' c' Ha' Hb' Hc').
  rewrite (compareChunks_text "v") by (vm_compute; discriminate).
  rewrite (compareChunks_number a a' _ _ _ _ Ea Ea').
  rewrite (compareChunks_text ".") by (vm_compute; discriminate).
  rewrite (compareChunks_number b b' _ _ _ _ Eb Eb').
  rewrite (compareChunks_text ".") by (vm_compute; discriminate).
  rewrite (compareChunks_number c c' _ _ _ _ Ec Ec').
  unfold versionLeb.
  destruct (Z.eqb_spec (majorRelease v) (majorRelease w)) as [E1|E1];
    destruct (Z.ltb_spec (majorRelease v) (majorRelease w));
    try lia; try reflexivity.
  destruct (Z.eqb_spec (minorRelease v) (minorRelease w)) as [E2|E2];
    destruct (Z.ltb_spec (minorRelease v) (minorRelease w));
    try lia; try reflexivity.
  destruct (Z.eqb_spec (bugFixRelease v) (bugFixRelease w)) as [E3|E3];
    destruct (Z.ltb_spec (bugFixRelease v) (bugFixRelease w));
    destruct (Z.leb_spec (bugFixRelease v) (bugFixRelease w));
    try lia; try reflexivity.
Qed.

(* ----------------------------------------------------------------- *)
(** ** The selector returns the greatest version *)

Lemma versionLeb_true (v w : Version) :
  versionLeb v w = true <->
  (majorRelease v < majorRelease w \/
   (majorRelease v = majorRelease w /\
    (minorRelease v < minorRelease w \/
     (minorRelease v = minorRelease w /\ bugFixRelease v <= bugFixRelease w)))).
Proof.
  unfold versionLeb.
  rewrite !orb_true_iff, !andb_true_iff, !orb_true_iff, !andb_true_iff.
  rewrite !Z.ltb_lt, !Z.eqb_eq, Z.leb_le. reflexivity.
Qed.

Lemma versionLeb_trans (u v w : Version) :
  versionLeb u v = true -> versionLeb v w = true -> versionLeb u w = true.
Proof. rewrite !versionLeb_true. lia. Qed.

Lemma versionLeb_total (v w : Version) :
  versionLeb v w = true \/ versionLeb w v = true.
Proof. rewrite !versionLeb_true. lia. Qed.

Lemma versionLeb_trans_false (u v w : Version) :
  versionLeb u v = false -> versionLeb v w = false -> versionLeb u w = false.
Proof.
  intros Huv Hvw.
  destruct (versionLeb_total u v) as [H|Hvu]; [congruence|].
  destruct (versionLeb_total v w) as [H|Hwv]; [congruence|].
  destruct (versionLeb u w) eqn:Huw; [|reflexivity].
  rewrite (versionLeb_trans u w v Huw Hwv) in Huv. discriminate.
Qed.

Section Greatest.
Variable sort_Sort : (string -> string -> bool) -> list string -> list string.
Hypothesis Hsorts : Sort.sorts sort_Sort.

Lemma getLatestVersionTag_max (tagList : list string) :
  (exists t, In t tagList /\ validateVersionFormat t = None) ->
  (forall t, In t tagList -> validateVersionFormat t = None ->
             snd (CastToVersion t) = None) ->
  exists latest v,
    In latest tagList /\
    CastToVersion latest = (v, None) /\
    getLatestVersionTag sort_Sort tagList = (v, None) /\
    forall t v', In t tagList -> CastToVersion t = (v', None) ->
                 versionLeb v' v = true.
Proof.
  intros (t0 & Ht0 & Hv0) Hrange.
  unfold getLatestVersionTag, natsort_Sort.
  remember (filter (fun t => match validateVersionFormat t with
                             | None => true
                             | Some _ => false
                             end) tagList) as versionList eqn:EL.
  assert (Hin : forall t, In t versionList <->
                          In t tagList /\ validateVersionFormat t = None).
  { intros t. rewrite EL, filter_In.
    destruct (validateVersionFormat t); split; intros [H1 H2];
      (split; [exact H1 | congruence]). }
  assert (Hparse : forall t, In t versionList ->
                             exists v, CastToVersion t = (v, None)).
  { intros t Ht. apply Hin in Ht as [Ht Hv].
    specialize (Hrange t Ht Hv).
    destruct (CastToVersion t) as [v [e|]]; [discriminate | eauto]. }
  assert (Htrans : Sort.transitiveLess Natsort.Compare versionList).
  { intros x y z Hx Hy Hz.
    destruct (Hparse x Hx) as [vx Ex].
    destruct (Hparse y Hy) as [vy Ey].
    destruct (Hparse z Hz) as [vz Ez].
    rewrite (Compare_versionLeb x y vx vy Ex Ey),
      (Compare_versionLeb y z vy vz Ey Ez),
      (Compare_versionLeb x z vx vz Ex Ez).
    split; [apply versionLeb_trans | apply versionLeb_trans_false]. }
  destruct (Hsorts Natsort.Compare versionList Htrans) as [Hperm Hasc].
  assert (Hne : versionList <> []).
  { intros E. assert (H : In t0 versionList) by (apply Hin; auto).
    rewrite E in H. destruct H. }
  clear EL.
  destruct versionList as [|x xs]; [contradiction|].
  set (sorted := sort_Sort Natsort.Compare (x :: xs)) in *.
  assert (Hsne : sorted <> []).
  { intros E. rewrite E in Hperm. apply Permutation_sym in Hperm.
    apply Permutation_nil in Hperm. discriminate. }
  pose proof (app_removelast_last "" Hsne) as Elast.
  set (latest := last sorted "") in *.
  assert (Hlatest : In latest (x :: xs)).
  { apply (Permutation_in latest (Permutation_sym Hperm)).
    rewrite Elast. apply in_or_app. right. left. reflexivity. }
  destruct (Hparse latest Hlatest) as [v Ev].
  exists latest, v. rewrite Ev.
  split; [apply Hin; exact Hlatest|].
  split; [reflexivity|]. split; [reflexivity|].
  intros t v' Ht Et.
  assert (Hvt : validateVersionFormat t = None).
  { destruct (validateVersionFormat t) as [e|] eqn:E; [|reflexivity].
    unfold CastToVersion in Et. rewrite E in Et. discriminate. }
  assert (Hts : In t sorted)
    by (apply (Permutation_in t Hperm), Hin; auto).
  rewrite Elast in Hts. apply in_app_or in Hts as [Hts | [<- | []]].
  - unfold Sort.ascending in Hasc. rewrite Elast in Hasc.
    apply FOP_snoc_inv in Hasc. rewrite Forall_forall in Hasc.
    specialize (Hasc t Hts). unfold Sort.mayPrecede in Hasc.
    rewrite (Compare_versionLeb latest t v v' Ev Et),
      (Compare_versionLeb t latest v' v Et Ev) in Hasc.
    destruct (versionLeb_total v' v) as [H|H]; [exact H | auto].
  - rewrite Ev in Et. injection Et as <-.
    destruct (versionLeb_total v v) as [H|H]; exact H.
Qed.
End Greatest.

(** C1, as the code has it: when at least one tag passes the validator and
    every tag that passes it has its three numbers inside the range of
    [int], [getLatestVersionTag] returns, with no error, the version parsed
    from one of the tags, and that version is the greatest of all the
    matching tags in the numeric (major, minor, bugfix) order;
    [["v0.0.25"; "v0.0.5"]] gives (0, 0, 25). *)
Theorem getLatestVersionTag_greatest
    (sort_Sort : (string -> string -> bool) -> list string -> list string)
    (tagList : list string) :
  Sort.sorts sort_Sort ->
  ((exists t, In t tagList /\ validateVersionFormat t = None) ->
   (forall t, In t tagList -> validateVersionFormat t = None ->
              snd (CastToVersion t) = None) ->
   exists latest v,
     In latest tagList /\
     CastToVersion latest = (v, None) /\
     getLatestVersionTag sort_Sort tagList = (v, None) /\
     forall t v', In t tagList -> CastToVersion t = (v', None) ->
                  versionLeb v' v = true) /\
  getLatestVersionTag sort_Sort ["v0.0.25"; "v0.0.5"] = (mkVersion 0 0 25, None).
Proof.
  intros Hsorts. split; [apply getLatestVersionTag_max; exact Hsorts|].
  destruct (getLatestVersionTag_max sort_Sort Hsorts ["v0.0.25"; "v0.0.5"])
    as (latest & v & Hin & Ev & Eg & Hmax).
  - exists "v0.0.25". split; [left; reflexivity | reflexivity].
  - intros t [<- | [<- | []]] _; reflexivity.
  - rewrite Eg.
    destruct Hin as [<- | [<- | []]].
    + vm_compute in Ev. injection Ev as <-. reflexivity.
    + vm_compute in Ev. injection Ev as <-.
      specialize (Hmax "v0.0.25" (mkVersion 0 0 25) (or_introl eq_refl) eq_refl).
      vm_compute in Hmax. discriminate.
Qed.

Lemma getLatestVersionTag_greatest_witness :
  (exists latest v,
     In latest ["v0.1.0"; "main"; "v0.0.25"; "v10.0.0"; "v2.0.0"; "HEAD"] /\
     CastToVersion latest = (v, None) /\
     getLatestVersionTag Sort.insertionSort
       ["v0.1.0"; "main"; "v0.0.25"; "v10.0.0"; "v2.0.0"; "HEAD"] = (v, None) /\
     forall t v',
       In t ["v0.1.0"; "main"; "v0.0.25"; "v10.0.0"; "v2.0.0"; "HEAD"] ->
       CastToVersion t = (v', None) -> versionLeb v' v = true) /\
  getLatestVersionTag Sort.insertionSort ["v0.0.25"; "v0.0.5"]
  = (mkVersion 0 0 25, None).
Proof.
  destruct (getLatestVersionTag_greatest Sort.insertionSort
              ["v0.1.0"; "main"; "v0.0.25"; "v10.0.0"; "v2.0.0"; "HEAD"]
              (insertionSort_sorts string)) as [Hmax Hex].
  split; [|exact Hex].
  apply Hmax.
  - exists "v0.1.0". split; [left; reflexivity | reflexivity].
  - intros t Ht Hv. simpl in Ht.
    repeat (destruct Ht as [<- | Ht];
            [first [reflexivity | vm_compute in Hv; discriminate Hv]|]).
    destruct Ht.
Defined.

(** C1 as stated fails on a tag whose digits do not fit [int]: the tag
    passes the validator, sorts last, and [CastToVersion] refuses it, also
    when another tag of the list would parse. *)
Lemma getLatestVersionTag_overflowing_tag :
  Sort.sorts (@Sort.insertionSort string) /\
  validateVersionFormat "v99999999999999999999.0.0" = None /\
  getLatestVersionTag Sort.insertionSort ["v99999999999999999999.0.0"]
  = (zeroVersion, Some (NumError "Atoi" "99999999999999999999" ErrRange)) /\
  getLatestVersionTag Sort.insertionSort ["v1.0.0"; "v99999999999999999999.0.0"]
  = (zeroVersion, Some (NumError "Atoi" "99999999999999999999" ErrRange)).
Proof.
  split; [apply insertionSort_sorts|].
  split; [reflexivity|]. split; reflexivity.
Qed.

(* ----------------------------------------------------------------- *)
(** ** The publisher *)

(** Running the [IO] steps of a computation: unfold the plumbing, then
    project the worlds it builds. *)
Ltac io_simpl := cbn [repo stdout Wrap].
Ltac io_unfold :=
  unfold BumpVersion, tag, bind, Println, look, call, ret; io_simpl.

(** C9: when the tag is created and the push fails, [tag] deletes the tag
    again; if that succeeds the error returned is the push error, wrapped;
    if it fails the error returned wraps the rollback error in a message
    that reports the failed push and that manual cleanup may be needed. *)
Theorem tag_push_failure {R : Type} `{Repository R}
    (newTagVersion : Version) (w : World R) (h : Reference) (r1 r2 : R)
    (pushErr : error) :
  repo_Head (repo w) = (h, None) ->
  repo_CreateTag (repo w) (Version_String newTagVersion) (ref_Hash h)
  = (None, r1) ->
  repo_Push r1 = (Some pushErr, r2) ->
  let out :=
    (stdout w ++
       [("new tag:  " ++ Version_String newTagVersion)%string;
        ("new tag has been created locally (view with 'git tag -l | tail'): "
           ++ Version_String newTagVersion)%string])%list in
  let cleanup :=
    "push local tag to remote failed, so attempted to rollback local tag. rollback local tag failed. May require manual cleanup." in
  (forall r3,
     repo_DeleteTag r2 (Version_String newTagVersion) = (None, r3) ->
     tag newTagVersion w
     = (Some (withMessage pushErr "unable to push new tag to remote repo"),
        mkWorld r3 out)) /\
  (forall rollbackErr r3,
     repo_DeleteTag r2 (Version_String newTagVersion) = (Some rollbackErr, r3) ->
     tag newTagVersion w
     = (Some (withMessage rollbackErr cleanup), mkWorld r3 out)) /\
  mentions "push local tag to remote failed" cleanup = true /\
  mentions "May require manual cleanup" cleanup = true.
Proof.
  intros Hhead Hcreate Hpush out cleanup.
  split; [|split; [|split; reflexivity]].
  - intros r3 Hdel. io_unfold.
    rewrite Hhead. io_simpl. rewrite Hcreate. io_simpl.
    rewrite Hpush. io_simpl. rewrite Hdel. io_simpl.
    unfold out. rewrite <- app_assoc. reflexivity.
  - intros rollbackErr r3 Hdel. io_unfold.
    rewrite Hhead. io_simpl. rewrite Hcreate. io_simpl.
    rewrite Hpush. io_simpl. rewrite Hdel. io_simpl.
    unfold out. rewrite <- app_assoc. reflexivity.
Qed.

Lemma tag_push_failure_witness :
  let offline :=
    mkScripted None [] None None "c0ffee" [] None
      (Some (gitError "connection refused")) None in
  let readonly :=
    mkScripted None [] None None "c0ffee" [] None
      (Some (gitError "connection refused"))
      (Some (gitError "permission denied")) in
  fst (tag (mkVersion 5 5 6) (mkWorld offline []))
  = Some (withMessage (gitError "connection refused")
            "unable to push new tag to remote repo") /\
  localTags (repo (snd (tag (mkVersion 5 5 6) (mkWorld offline [])))) = [] /\
  fst (tag (mkVersion 5 5 6) (mkWorld readonly []))
  = Some (withMessage (gitError "permission denied")
            "push local tag to remote failed, so attempted to rollback local tag. rollback local tag failed. May require manual cleanup.").
Proof.
  intros offline readonly.
  pose proof (tag_push_failure (mkVersion 5 5 6) (mkWorld offline [])
                ("HEAD", "c0ffee")
                (mkScripted None [] None None "c0ffee" [("v5.5.6", "c0ffee")]
                   None (Some (gitError "connection refused")) None)
                _ (gitError "connection refused")
                eq_refl eq_refl eq_refl) as [Hok _].
  pose proof (tag_push_failure (mkVersion 5 5 6) (mkWorld readonly [])
                ("HEAD", "c0ffee")
                (mkScripted None [] None None "c0ffee" [("v5.5.6", "c0ffee")]
                   None (Some (gitError "connection refused"))
                   (Some (gitError "permission denied")))
                _ (gitError "connection refused")
                eq_refl eq_refl eq_refl) as [_ [Hfail _]].
  rewrite (Hok _ eq_refl), (Hfail _ _ eq_refl).
  split; [reflexivity | split; reflexivity].
Defined.

(* ----------------------------------------------------------------- *)
(** ** Orchestration *)

Lemma tag_result_passed_on {R : Type} `{Repository R} (v : Version) (w : World R) :
  bind (tag v) (fun err => match err with
                           | Some _ => ret err
                           | None => ret None
                           end) w = tag v w.
Proof.
  unfold bind. destruct (tag v w) as [[e|] w']; reflexivity.
Qed.

(** What [BumpVersion] does once the selector has reported
    [ErrNoVersionTagsFound]: one line on standard output, then [tag] of the
    zero version. *)
Lemma BumpVersion_bootstrap {R : Type} `{Repository R}
    (sort_Sort : (string -> string -> bool) -> list string -> list string)
    (major minor : bool) (w : World R) (tagList : list string) (v0 : Version) :
  getRemoteGitTags (repo w) = (tagList, None) ->
  getLatestVersionTag sort_Sort tagList = (v0, Some ErrNoVersionTagsFound) ->
  BumpVersion sort_Sort major minor w
  = tag zeroVersion
      (mkWorld (repo w)
         (stdout w ++ ["no version tags found, creating new tag version: v0.0.0"])).
Proof.
  intros Htags Hsel.
  unfold BumpVersion, look. unfold bind at 1. rewrite Htags, Hsel.
  destruct (error_eq_dec ErrNoVersionTagsFound ErrNoVersionTagsFound)
    as [_|Hne]; [|contradiction].
  unfold bind at 1. unfold Println at 1.
  apply tag_result_passed_on.
Qed.

(** C8: on [ErrNoVersionTagsFound] from the selector [BumpVersion] does not
    increment anything and returns what [tag] returns for the zero version,
    printed as v0.0.0; any other error of the selector and any error of
    [getRemoteGitTags] comes back wrapped, and nothing else happens. *)
Theorem BumpVersion_selector_outcomes {R : Type} `{Repository R}
    (sort_Sort : (string -> string -> bool) -> list string -> list string)
    (major minor : bool) (w : World R) :
  (forall tagList v0,
     getRemoteGitTags (repo w) = (tagList, None) ->
     getLatestVersionTag sort_Sort tagList = (v0, Some ErrNoVersionTagsFound) ->
     BumpVersion sort_Sort major minor w
     = tag zeroVersion
         (mkWorld (repo w)
            (stdout w ++
               ["no version tags found, creating new tag version: v0.0.0"]))) /\
  Version_String zeroVersion = "v0.0.0" /\
  (forall tagList v0 err,
     getRemoteGitTags (repo w) = (tagList, None) ->
     getLatestVersionTag sort_Sort tagList = (v0, Some err) ->
     err <> ErrNoVersionTagsFound ->
     BumpVersion sort_Sort major minor w
     = (Some (withMessage err "unable to get latest version tag from the tag list"),
        w)) /\
  (forall tagList err,
     getRemoteGitTags (repo w) = (tagList, Some err) ->
     BumpVersion sort_Sort major minor w
     = (Some (withMessage err "Unable to get remote git tags from the repo"), w)).
Proof.
  split; [|split; [reflexivity | split]].
  - intros tagList v0. apply BumpVersion_bootstrap.
  - intros tagList v0 err Htags Hsel Hne.
    unfold BumpVersion, look, bind, ret. rewrite Htags, Hsel.
    destruct (error_eq_dec err ErrNoVersionTagsFound); [contradiction|].
    reflexivity.
  - intros tagList err Htags.
    unfold BumpVersion, look, bind, ret. rewrite Htags. reflexivity.
Qed.

Lemma BumpVersion_selector_outcomes_witness :
  let fresh :=
    mkScripted None [("refs/heads/main", "main")] None None "c0ffee" []
      None None None in
  let huge :=
    mkScripted None [("refs/tags/v99999999999999999999.0.0",
                      "v99999999999999999999.0.0")] None None "c0ffee" []
      None None None in
  let unreachable :=
    mkScripted None [] (Some (gitError "connection refused")) None "c0ffee" []
      None None None in
  BumpVersion Sort.insertionSort true true (mkWorld fresh [])
  = tag zeroVersion
      (mkWorld fresh ["no version tags found, creating new tag version: v0.0.0"]) /\
  localTags (repo (snd (BumpVersion Sort.insertionSort true true (mkWorld fresh []))))
  = [("v0.0.0", "c0ffee")] /\
  BumpVersion Sort.insertionSort false false (mkWorld huge [])
  = (Some (withMessage (NumError "Atoi" "99999999999999999999" ErrRange)
             "unable to get latest version tag from the tag list"),
     mkWorld huge []) /\
  BumpVersion Sort.insertionSort false false (mkWorld unreachable [])
  = (Some (withMessage
             (withMessage (gitError "connection refused")
                "unable to list references from remote repo")
             "Unable to get remote git tags from the repo"),
     mkWorld unreachable []).
Proof.
  intros fresh huge unreachable.
  destruct (BumpVersion_selector_outcomes Sort.insertionSort true true
              (mkWorld fresh [])) as [Hboot _].
  destruct (BumpVersion_selector_outcomes Sort.insertionSort false false
              (mkWorld huge [])) as [_ [_ [Hother _]]].
  destruct (BumpVersion_selector_outcomes Sort.insertionSort false false
              (mkWorld unreachable [])) as [_ [_ [_ Hfetch]]].
  split; [|split; [|split]].
  - apply (Hboot ["main"] zeroVersion); reflexivity.
  - rewrite (Hboot ["main"] zeroVersion eq_refl eq_refl). reflexivity.
  - apply (Hother ["v99999999999999999999.0.0"] zeroVersion);
      [reflexivity | reflexivity | discriminate].
  - apply (Hfetch []). reflexivity.
Defined.

(** C10: [getRemoteGitTags] returns the short name of every reference the
    remote lists, whatever kind of reference it is, and fails with
    [ErrNoTagsFound] exactly when the remote lists none; so a remote with
    references none of which has the version format makes the selector
    report [ErrNoVersionTagsFound] and [BumpVersion] publish the zero
    version. *)
Theorem getRemoteGitTags_every_reference {R : Type} `{Repository R}
    (sort_Sort : (string -> string -> bool) -> list string -> list string)
    (major minor : bool) (w : World R) :
  (forall remote refs,
     repo_Remote (repo w) "origin" = (remote, None) ->
     remote_List (repo w) remote = (refs, None) ->
     refs <> [] ->
     getRemoteGitTags (repo w) = (map ref_Short refs, None)) /\
  (snd (getRemoteGitTags (repo w)) = Some ErrNoTagsFound <->
   exists remote,
     repo_Remote (repo w) "origin" = (remote, None) /\
     remote_List (repo w) remote = ([], None)) /\
  (forall remote refs,
     repo_Remote (repo w) "origin" = (remote, None) ->
     remote_List (repo w) remote = (refs, None) ->
     refs <> [] ->
     (forall ref, In ref refs -> validateVersionFormat (ref_Short ref) <> None) ->
     getLatestVersionTag sort_Sort (map ref_Short refs)
     = (zeroVersion, Some ErrNoVersionTagsFound) /\
     BumpVersion sort_Sort major minor w
     = tag zeroVersion
         (mkWorld (repo w)
            (stdout w ++
               ["no version tags found, creating new tag version: v0.0.0"]))).
Proof.
  assert (Hall : forall remote refs,
            repo_Remote (repo w) "origin" = (remote, None) ->
            remote_List (repo w) remote = (refs, None) ->
            refs <> [] ->
            getRemoteGitTags (repo w) = (map ref_Short refs, None)).
  { intros remote refs Hremote Hlist Hne.
    unfold getRemoteGitTags. rewrite Hremote, Hlist.
    destruct refs; [contradiction | reflexivity]. }
  split; [exact Hall | split].
  - unfold getRemoteGitTags. split.
    + destruct (repo_Remote (repo w) "origin") as [remote [e|]];
        [simpl; discriminate|].
      destruct (remote_List (repo w) remote) as [refs [e|]] eqn:Hlist;
        [simpl; discriminate|].
      destruct refs; [|simpl; discriminate].
      intros _. exists remote. auto.
    + intros (remote & -> & ->). reflexivity.
  - intros remote refs Hremote Hlist Hne Hnone.
    assert (Hsel : getLatestVersionTag sort_Sort (map ref_Short refs)
                   = (zeroVersion, Some ErrNoVersionTagsFound)).
    { apply selector_without_version_tags.
      intros t Ht. apply in_map_iff in Ht as (ref & <- & Hin).
      apply Hnone, Hin. }
    split; [exact Hsel|].
    apply (BumpVersion_bootstrap sort_Sort major minor w
             (map ref_Short refs) zeroVersion);
      [apply (Hall remote refs); assumption | exact Hsel].
Qed.

Lemma getRemoteGitTags_every_reference_witness :
  let branches :=
    mkScripted None
      [("HEAD", "HEAD"); ("refs/heads/main", "main");
       ("refs/heads/v2", "v2"); ("refs/tags/nightly", "nightly")]
      None None "c0ffee" [] None None None in
  getRemoteGitTags branches = (["HEAD"; "main"; "v2"; "nightly"], None) /\
  fst (BumpVersion Sort.insertionSort false false (mkWorld branches [])) = None /\
  localTags (repo (snd (BumpVersion Sort.insertionSort false false
                          (mkWorld branches []))))
  = [("v0.0.0", "c0ffee")].
Proof.
  intros branches.
  destruct (getRemoteGitTags_every_reference Sort.insertionSort false false
              (mkWorld branches [])) as [Hall [_ Hboot]].
  split.
  - assert (Hne : listing branches <> []) by discriminate.
    exact (Hall tt (listing branches) eq_refl eq_refl Hne).
  - destruct (Hboot tt (listing branches) eq_refl eq_refl) as [_ Hrun].
    + discriminate.
    + intros ref Href. simpl in Href.
      repeat (destruct Href as [<- | Href]; [vm_compute; discriminate|]).
      destruct Href.
    + rewrite Hrun. split; reflexivity.
Defined.

(* ================================================================= *)
(** * Further properties of the package *)

Import BumpNotions.

(* ----------------------------------------------------------------- *)
(** ** What the parser returns *)

(** On a string the validator accepts, [CastToVersion] either returns the
    three numbers, or the range error of the first run that is too long for
    [int]. *)
Lemma CastToVersion_runs (a b c : string) :
  digitRun a -> digitRun b -> digitRun c ->
  CastToVersion ("v" ++ a ++ "." ++ b ++ "." ++ c)
  = if (digitsValue a 0 >? maxInt)%Z
    then (zeroVersion, Some (NumError "Atoi" a ErrRange))
    else if (digitsValue b 0 >? maxInt)%Z
    then (zeroVersion, Some (NumError "Atoi" b ErrRange))
    else if (digitsValue c 0 >? maxInt)%Z
    then (zeroVersion, Some (NumError "Atoi" c ErrRange))
    else (mkVersion (digitsValue a 0) (digitsValue b 0) (digitsValue c 0), None).
Proof.
  intros Ha Hb Hc.
  rewrite CastToVersion_valid
    by (apply syntax_validateVersionFormat; exists a, b, c; auto).
  rewrite (Split_version a b c Ha Hb Hc).
  cbn [atoiEach].
  rewrite (Atoi_digitRun a Ha).
  destruct (digitsValue a 0 >? maxInt)%Z; [reflexivity|].
  rewrite (Atoi_digitRun b Hb).
  destruct (digitsValue b 0 >? maxInt)%Z; [reflexivity|].
  rewrite (Atoi_digitRun c Hc).
  destruct (digitsValue c 0 >? maxInt)%Z; reflexivity.
Qed.

Lemma digitRun_value_nonneg (d : string) : digitRun d -> 0 <= digitsValue d 0.
Proof. intros [_ Hd]. apply digitsValue_lower; [lia | exact Hd]. Qed.

Lemma CastToVersion_outcome (s : string) :
  (exists v, CastToVersion s = (v, None) /\ validVersion v /\ VersionSyntax s) \/
  (exists num, CastToVersion s = (zeroVersion, Some (NumError "Atoi" num ErrRange))
               /\ VersionSyntax s) \/
  (CastToVersion s = (zeroVersion, Some ErrVersionFormat) /\ ~ VersionSyntax s).
Proof.
  destruct (validateVersionFormat s) as [e|] eqn:Hv.
  - right. right.
    assert (Hn : ~ VersionSyntax s).
    { intros Hs. rewrite (syntax_validateVersionFormat s Hs) in Hv.
      discriminate. }
    split; [|exact Hn].
    unfold CastToVersion. rewrite Hv.
    unfold validateVersionFormat in Hv.
    destruct (negb (MatchString versionPattern s)); [|discriminate].
    injection Hv as <-. reflexivity.
  - pose proof (validateVersionFormat_syntax s Hv) as Hs.
    destruct Hs as (a & b & c & Ha & Hb & Hc & E).
    assert (Hsyn : VersionSyntax s) by (exists a, b, c; auto).
    rewrite E in *. rewrite (CastToVersion_runs a b c Ha Hb Hc).
    pose proof (digitRun_value_nonneg a Ha).
    pose proof (digitRun_value_nonneg b Hb).
    pose proof (digitRun_value_nonneg c Hc).
    destruct (digitsValue a 0 >? maxInt)%Z eqn:Ea; [right; left; eauto|].
    destruct (digitsValue b 0 >? maxInt)%Z eqn:Eb; [right; left; eauto|].
    destruct (digitsValue c 0 >? maxInt)%Z eqn:Ec; [right; left; eauto|].
    left. eexists. split; [reflexivity|]. split; [|exact Hsyn].
    rewrite Z.gtb_ltb in Ea, Eb, Ec. apply Z.ltb_ge in Ea, Eb, Ec.
    unfold validVersion. simpl. lia.
Qed.

(** X1: on a [v] followed by three digit runs that fit [int],
    [CastToVersion] returns the three numbers the runs denote, zeros in
    front of a run included. *)
Theorem CastToVersion_digit_runs (a b c : string) :
  digitRun a -> digitRun b -> digitRun c ->
  digitsValue a 0 <= maxInt -> digitsValue b 0 <= maxInt ->
  digitsValue c 0 <= maxInt ->
  CastToVersion ("v" ++ a ++ "." ++ b ++ "." ++ c)
  = (mkVersion (digitsValue a 0) (digitsValue b 0) (digitsValue c 0), None).
Proof.
  intros Ha Hb Hc Va Vb Vc.
  rewrite (CastToVersion_runs a b c Ha Hb Hc).
  assert (Hgt : forall n, n <= maxInt -> (n >? maxInt)%Z = false)
    by (intros n Hn; rewrite Z.gtb_ltb; apply Z.ltb_ge; exact Hn).
  rewrite (Hgt _ Va), (Hgt _ Vb), (Hgt _ Vc). reflexivity.
Qed.

Lemma CastToVersion_digit_runs_witness :
  CastToVersion "v007.0.10" = (mkVersion 7 0 10, None).
Proof.
  apply (CastToVersion_digit_runs "007" "0" "10");
    try (split; [discriminate | reflexivity]);
    vm_compute; discriminate.
Defined.

(** X2: whatever the string, [CastToVersion] returns either a version
    with non-negative components inside [int] and no error, or the zero
    version together with an error, which is [ErrVersionFormat] or a range
    error of [strconv.Atoi]. *)
Theorem CastToVersion_valid_or_zero (s : string) :
  (exists v, CastToVersion s = (v, None) /\ validVersion v) \/
  (exists e, CastToVersion s = (zeroVersion, Some e) /\
             (e = ErrVersionFormat \/ exists num, e = NumError "Atoi" num ErrRange)).
Proof.
  destruct (CastToVersion_outcome s)
    as [(v & E & Hv & _) | [(num & E & _) | [E _]]].
  - left. eauto.
  - right. eexists. split; [exact E|]. right. eauto.
  - right. eexists. split; [exact E|]. left. reflexivity.
Qed.

(* ----------------------------------------------------------------- *)
(** ** Printing after parsing *)

Lemma digitChar_digitVal (c : ascii) : isDigit c = true -> digitChar (digitVal c) = c.
Proof.
  intros Hc. pose proof (digitVal_bounds c Hc) as Hb.
  unfold digitChar, digitVal in *.
  replace (48 + (Z.of_nat (nat_of_ascii c) - 48)) with (Z.of_nat (nat_of_ascii c))
    by lia.
  rewrite Nat2Z.id. apply ascii_nat_embedding.
Qed.

Lemma digitVal_zero (c : ascii) : isDigit c = true -> digitVal c = 0 -> c = "0"%char.
Proof.
  intros Hc H0. rewrite <- (digitChar_digitVal c Hc), H0. reflexivity.
Qed.

(** Printing the value of [n] followed by the digits [d] prints [n] and
    then [d], as long as [n] is not zero. *)
Lemma fmtDigits_digitsValue (d : string) :
  allDigits d = true ->
  forall n f buf, 1 <= n ->
    fmtDigits (String.length d + f) (digitsValue d n) buf
    = fmtDigits f n (d ++ buf).
Proof.
  induction d as [|c d IH]; intros Hd n f buf Hn; [reflexivity|].
  simpl in Hd. apply andb_true_iff in Hd as [Hc Hd].
  pose proof (digitVal_bounds c Hc) as Hb.
  cbn [String.length digitsValue].
  replace (S (String.length d) + f)%nat with (String.length d + S f)%nat by lia.
  rewrite (IH Hd (n * 10 + digitVal c) (S f) buf) by lia.
  cbn [fmtDigits].
  assert (Hge : (10 <=? n * 10 + digitVal c)%Z = true) by (apply Z.leb_le; lia).
  rewrite Hge.
  assert (Hq : (n * 10 + digitVal c) / 10 = n).
  { symmetry. apply (Z.div_unique _ 10 n (digitVal c)); lia. }
  rewrite Hq.
  replace (n * 10 + digitVal c - n * 10) with (digitVal c) by lia.
  rewrite (digitChar_digitVal c Hc). reflexivity.
Qed.

Lemma digitsValue_bounds (d : string) :
  allDigits d = true ->
  forall n, 0 <= n ->
    n * 10 ^ Z.of_nat (String.length d) <= digitsValue d n
    < (n + 1) * 10 ^ Z.of_nat (String.length d).
Proof.
  induction d as [|c d IH]; intros Hd n Hn.
  - simpl. lia.
  - simpl in Hd. apply andb_true_iff in Hd as [Hc Hd].
    pose proof (digitVal_bounds c Hc) as Hb.
    cbn [String.length digitsValue].
    rewrite Nat2Z.inj_succ, Z.pow_succ_r by lia.
    assert (Hn' : 0 <= n * 10 + digitVal c) by lia.
    pose proof (IH Hd (n * 10 + digitVal c) Hn') as [Hlo Hhi].
    assert (Hp : 0 < 10 ^ Z.of_nat (String.length d))
      by (apply Z.pow_pos_nonneg; lia).
    nia.
Qed.

(** [%d] of the number a run without leading zeros denotes is that run. *)
Lemma fmtInteger_digitsValue (d : string) :
  digitRun d -> noLeadingZero d -> digitsValue d 0 <= maxInt ->
  fmtInteger (digitsValue d 0) = d.
Proof.
  intros [Hne Hd] Hz Hmax.
  destruct Hz as [-> | (c & r & -> & Hc0)]; [reflexivity|].
  simpl in Hd. apply andb_true_iff in Hd as [Hc Hr].
  pose proof (digitVal_bounds c Hc) as Hb.
  assert (Hc1 : 1 <= digitVal c).
  { destruct (Z.eq_dec (digitVal c) 0) as [E|E]; [|lia].
    elim Hc0. apply digitVal_zero; assumption. }
  cbn [digitsValue] in *. rewrite Z.mul_0_l, Z.add_0_l in *.
  assert (Hc0' : 0 <= digitVal c) by lia.
  pose proof (digitsValue_bounds r Hr (digitVal c) Hc0') as [Hlo _].
  assert (Hlen : (String.length r < 19)%nat).
  { destruct (Nat.lt_ge_cases (String.length r) 19) as [Hlt|Hge]; [exact Hlt|].
    exfalso.
    assert (Hpow : 10 ^ 19 <= 10 ^ Z.of_nat (String.length r))
      by (apply Z.pow_le_mono_r; lia).
    rewrite maxInt_value in Hmax.
    change (10 ^ 19) with 10000000000000000000 in Hpow. nia. }
  unfold fmtInteger.
  assert (Hneg : (digitsValue r (digitVal c) <? 0)%Z = false)
    by (apply Z.ltb_ge; nia).
  rewrite Hneg.
  replace 20%nat with (String.length r + S (19 - String.length r))%nat by lia.
  rewrite (fmtDigits_digitsValue r Hr (digitVal c) _ "" Hc1).
  cbn [fmtDigits].
  assert (Hlt : (10 <=? digitVal c)%Z = false) by (apply Z.leb_gt; lia).
  rewrite Hlt, (digitChar_digitVal c Hc), append_nil_r. reflexivity.
Qed.

(** X3: when a tag written without leading zeros parses, printing the
    version gives the tag back. *)
Theorem Version_String_of_cast (a b c : string) (v : Version) :
  digitRun a -> digitRun b -> digitRun c ->
  noLeadingZero a -> noLeadingZero b -> noLeadingZero c ->
  CastToVersion ("v" ++ a ++ "." ++ b ++ "." ++ c) = (v, None) ->
  Version_String v = "v" ++ a ++ "." ++ b ++ "." ++ c.
Proof.
  intros Ha Hb Hc Za Zb Zc Hcast.
  rewrite (CastToVersion_runs a b c Ha Hb Hc) in Hcast.
  destruct (digitsValue a 0 >? maxInt)%Z eqn:Ea; [discriminate|].
  destruct (digitsValue b 0 >? maxInt)%Z eqn:Eb; [discriminate|].
  destruct (digitsValue c 0 >? maxInt)%Z eqn:Ec; [discriminate|].
  injection Hcast as <-.
  rewrite Z.gtb_ltb in Ea, Eb, Ec. apply Z.ltb_ge in Ea, Eb, Ec.
  unfold Version_String. cbn [majorRelease minorRelease bugFixRelease].
  rewrite (fmtInteger_digitsValue a Ha Za Ea),
    (fmtInteger_digitsValue b Hb Zb Eb), (fmtInteger_digitsValue c Hc Zc Ec).
  reflexivity.
Qed.

Lemma Version_String_of_cast_witness :
  Version_String (mkVersion 143 0 9223372036854775807)
  = "v143.0.9223372036854775807".
Proof.
  apply (Version_String_of_cast "143" "0" "9223372036854775807");
    try (split; [discriminate | reflexivity]);
    try reflexivity.
  - right. exists "1"%char, "43". split; [reflexivity | discriminate].
  - left. reflexivity.
  - right. exists "9"%char, "223372036854775807".
    split; [reflexivity | discriminate].
Defined.

(* ----------------------------------------------------------------- *)
(** ** The tag name of a version *)

Lemma hasChar_app (c : ascii) (s1 s2 : string) :
  hasChar c (s1 ++ s2) = hasChar c s1 || hasChar c s2.
Proof.
  induction s1 as [|d s1 IH]; cbn [hasChar append]; [reflexivity|].
  rewrite IH. apply orb_assoc.
Qed.

Lemma allDigits_no_minus (d : string) : allDigits d = true -> hasChar "-" d = false.
Proof.
  induction d as [|c d IH]; cbn [hasChar allDigits]; intros H; [reflexivity|].
  apply andb_true_iff in H as [Hc Hd]. rewrite (IH Hd), orb_false_r.
  destruct (Ascii.eqb_spec "-" c) as [<-|]; [discriminate | reflexivity].
Qed.

Lemma VersionSyntax_no_minus (s : string) : VersionSyntax s -> hasChar "-" s = false.
Proof.
  intros (a & b & c & [_ Ha] & [_ Hb] & [_ Hc] & ->).
  change ("v" ++ a ++ "." ++ b ++ "." ++ c)
    with (String "v" (a ++ String "." (b ++ String "." c))).
  cbn [hasChar]. rewrite hasChar_app. cbn [hasChar]. rewrite hasChar_app.
  cbn [hasChar].
  rewrite (allDigits_no_minus a Ha), (allDigits_no_minus b Hb),
    (allDigits_no_minus c Hc).
  reflexivity.
Qed.

Lemma fmtInteger_negative (n : Z) : n < 0 -> hasChar "-" (fmtInteger n) = true.
Proof.
  intros Hn. unfold fmtInteger.
  assert (Hneg : (n <? 0)%Z = true) by (apply Z.ltb_lt; exact Hn).
  rewrite Hneg. reflexivity.
Qed.

Lemma Version_String_syntax (v : Version) :
  validVersion v -> VersionSyntax (Version_String v).
Proof.
  intros (Hmaj & Hmin & Hbug).
  exists (fmtInteger (majorRelease v)), (fmtInteger (minorRelease v)),
    (fmtInteger (bugFixRelease v)).
  split; [apply fmtInteger_digitRun, Hmaj|].
  split; [apply fmtInteger_digitRun, Hmin|].
  split; [apply fmtInteger_digitRun, Hbug | reflexivity].
Qed.

(** X4: for a version whose components are values of [int], the name
    [String()] prints passes [validateVersionFormat] exactly when no
    component is negative. *)
Theorem Version_String_passes_iff (v : Version) :
  intVersion v ->
  (validateVersionFormat (Version_String v) = None <-> validVersion v).
Proof.
  intros (Rmaj & Rmin & Rbug). split.
  - intros Hv. apply validateVersionFormat_syntax, VersionSyntax_no_minus in Hv.
    unfold Version_String in Hv.
    change (hasChar "-"
              (String "v" (fmtInteger (majorRelease v) ++
                 String "." (fmtInteger (minorRelease v) ++
                   String "." (fmtInteger (bugFixRelease v))))) = false) in Hv.
    cbn [hasChar] in Hv. rewrite hasChar_app in Hv. cbn [hasChar] in Hv.
    rewrite hasChar_app in Hv. cbn [hasChar] in Hv.
    change (Ascii.eqb "-" "v") with false in Hv.
    change (Ascii.eqb "-" ".") with false in Hv.
    cbn [orb] in Hv.
    apply orb_false_iff in Hv as [H1 Hv]. apply orb_false_iff in Hv as [H2 H3].
    assert (Hnn : forall n, hasChar "-" (fmtInteger n) = false -> 0 <= n).
    { intros n Hn. destruct (Z.lt_ge_cases n 0) as [Hlt|Hge]; [|exact Hge].
      rewrite (fmtInteger_negative n Hlt) in Hn. discriminate. }
    unfold inRange in *. unfold validVersion.
    pose proof (Hnn _ H1). pose proof (Hnn _ H2). pose proof (Hnn _ H3). lia.
  - intros Hvalid. apply syntax_validateVersionFormat, Version_String_syntax, Hvalid.
Qed.

Lemma Version_String_passes_iff_witness :
  validateVersionFormat (Version_String (mkVersion 5 5 6)) = None /\
  ~ validVersion (mkVersion minInt 0 0).
Proof.
  split.
  - apply (proj2 (Version_String_passes_iff (mkVersion 5 5 6)
                    ltac:(vm_compute; repeat split; discriminate))).
    vm_compute. repeat split; discriminate.
  - intros Hvalid.
    apply (proj2 (Version_String_passes_iff (mkVersion minInt 0 0)
                    ltac:(vm_compute; repeat split; discriminate))) in Hvalid.
    vm_compute in Hvalid. discriminate.
Defined.

Lemma CastToVersion_printed (v : Version) :
  validVersion v -> CastToVersion (Version_String v) = (v, None).
Proof.
  intros (Hmaj & Hmin & Hbug). destruct v as [mj mn bf]. simpl in *.
  destruct (fmtInteger_digitRun mj Hmaj) as [Ha Va].
  destruct (fmtInteger_digitRun mn Hmin) as [Hb Vb].
  destruct (fmtInteger_digitRun bf Hbug) as [Hc Vc].
  unfold Version_String. cbn [majorRelease minorRelease bugFixRelease].
  rewrite (CastToVersion_runs _ _ _ Ha Hb Hc), Va, Vb, Vc.
  assert (Hgt : forall n, n <= maxInt -> (n >? maxInt)%Z = false)
    by (intros n Hn; rewrite Z.gtb_ltb; apply Z.ltb_ge; exact Hn).
  rewrite (Hgt mj), (Hgt mn), (Hgt bf) by lia. reflexivity.
Qed.

(** X5: two valid versions that print the same tag name are the same
    version. *)
Theorem Version_String_injective (v w : Version) :
  validVersion v -> validVersion w ->
  Version_String v = Version_String w -> v = w.
Proof.
  intros Hv Hw E.
  pose proof (CastToVersion_printed v Hv) as Pv.
  pose proof (CastToVersion_printed w Hw) as Pw.
  rewrite E, Pw in Pv. injection Pv as ->. reflexivity.
Qed.

Lemma Version_String_injective_witness :
  Version_String (mkVersion 1 10 0) <> Version_String (mkVersion 11 0 0).
Proof.
  intros E.
  assert (H : mkVersion 1 10 0 = mkVersion 11 0 0).
  { apply Version_String_injective;
      [vm_compute; repeat split; discriminate
      | vm_compute; repeat split; discriminate | exact E]. }
  discriminate H.
Defined.

(* ----------------------------------------------------------------- *)
(** ** The incremented version *)

Lemma incrementVersion_computed (v : Version) (major minor : bool) :
  major && minor = false ->
  minInt <= bumped v major minor < maxInt ->
  incrementVersion v major minor
  = (if major then mkVersion (majorRelease v + 1) 0 0
     else if minor then mkVersion (majorRelease v) (minorRelease v + 1) 0
     else mkVersion (majorRelease v) (minorRelease v) (bugFixRelease v + 1),
     None).
Proof.
  intros Hflags Hb. unfold incrementVersion. rewrite Hflags.
  unfold bumped in Hb.
  destruct major; [|destruct minor];
    unfold incrementMajor, incrementMinor, incrementBugFix;
    rewrite wrap_succ by exact Hb; reflexivity.
Qed.

(** X6: with at most one flag set and no overflow, the version
    [incrementVersion] returns is strictly greater than its argument in the
    (major, minor, bugfix) order. *)
Theorem incrementVersion_strictly_greater (v : Version) (major minor : bool) :
  major && minor = false ->
  minInt <= bumped v major minor < maxInt ->
  versionLeb v (fst (incrementVersion v major minor)) = true /\
  versionLeb (fst (incrementVersion v major minor)) v = false.
Proof.
  intros Hflags Hb.
  rewrite (incrementVersion_computed v major minor Hflags Hb).
  cbn [fst]. split.
  - apply versionLeb_true.
    destruct major; [|destruct minor]; cbn [majorRelease minorRelease bugFixRelease]; lia.
  - apply not_true_iff_false. rewrite versionLeb_true.
    destruct major; [|destruct minor]; cbn [majorRelease minorRelease bugFixRelease]; lia.
Qed.

Lemma incrementVersion_strictly_greater_witness :
  versionLeb (mkVersion 1 99 99) (fst (incrementVersion (mkVersion 1 99 99) true false))
  = true /\
  versionLeb (fst (incrementVersion (mkVersion 1 99 99) true false)) (mkVersion 1 99 99)
  = false.
Proof.
  apply (incrementVersion_strictly_greater (mkVersion 1 99 99) true false);
    [reflexivity | vm_compute; split; [discriminate | reflexivity]].
Defined.

(** X7: with at most one flag set and no overflow, [incrementVersion]
    takes a valid version to a valid version, and the name of the new
    version parses back to it: the next run reads what this run writes. *)
Theorem incrementVersion_valid_and_readable (v : Version) (major minor : bool) :
  validVersion v ->
  major && minor = false ->
  bumped v major minor < maxInt ->
  validVersion (fst (incrementVersion v major minor)) /\
  CastToVersion (Version_String (fst (incrementVersion v major minor)))
  = (fst (incrementVersion v major minor), None).
Proof.
  intros Hvalid Hflags Hb.
  assert (Hb' : minInt <= bumped v major minor < maxInt).
  { destruct Hvalid as (Hmaj & Hmin & Hbug). rewrite minInt_value.
    unfold bumped in *. destruct major; [|destruct minor]; lia. }
  assert (Hnew : validVersion (fst (incrementVersion v major minor))).
  { rewrite (incrementVersion_computed v major minor Hflags Hb').
    destruct Hvalid as (Hmaj & Hmin & Hbug).
    unfold bumped in Hb. unfold validVersion.
    destruct major; [|destruct minor];
      cbn [fst majorRelease minorRelease bugFixRelease];
      rewrite maxInt_value in *; lia. }
  split; [exact Hnew | apply CastToVersion_printed, Hnew].
Qed.

Lemma incrementVersion_valid_and_readable_witness :
  CastToVersion (Version_String (fst (incrementVersion (mkVersion 5 5 5) false true)))
  = (mkVersion 5 6 0, None).
Proof.
  apply (incrementVersion_valid_and_readable (mkVersion 5 5 5) false true);
    [vm_compute; repeat split; discriminate | reflexivity | reflexivity].
Defined.

(* ----------------------------------------------------------------- *)
(** ** More on the selector *)

Lemma passes_iff (t : string) : passes t = true <-> validateVersionFormat t = None.
Proof.
  unfold passes. destruct (validateVersionFormat t); split; congruence.
Qed.

Lemma CastToVersion_ok_passes (t : string) (v : Version) :
  CastToVersion t = (v, None) -> validateVersionFormat t = None.
Proof.
  intros H. destruct (validateVersionFormat t) as [e|] eqn:E; [|reflexivity].
  unfold CastToVersion in H. rewrite E in H. discriminate.
Qed.

Lemma versionLeb_antisym (v w : Version) :
  versionLeb v w = true -> versionLeb w v = true -> v = w.
Proof.
  rewrite !versionLeb_true. destruct v as [a b c], w as [a' b' c'].
  cbn [majorRelease minorRelease bugFixRelease]. intros H1 H2.
  assert (a = a') by lia. assert (b = b') by lia. assert (c = c') by lia.
  subst. reflexivity.
Qed.

(** X8: tags that do not pass the validator have no influence on
    [getLatestVersionTag], whatever [sort.Sort] does: the result on a list
    is the result on its version tags alone. *)
Theorem getLatestVersionTag_ignores_other_tags
    (sort_Sort : (string -> string -> bool) -> list string -> list string)
    (tagList : list string) :
  getLatestVersionTag sort_Sort tagList
  = getLatestVersionTag sort_Sort (filter passes tagList).
Proof.
  unfold getLatestVersionTag.
  change (fun t => match validateVersionFormat t with
                   | None => true
                   | Some _ => false
                   end) with passes.
  assert (Hidem : filter passes (filter passes tagList) = filter passes tagList).
  { induction tagList as [|t l IH]; [reflexivity|].
    cbn [filter]. destruct (passes t) eqn:E; [|exact IH].
    cbn [filter]. rewrite E, IH. reflexivity. }
  rewrite Hidem. reflexivity.
Qed.

Section SelectorFacts.
Variable sort_Sort : (string -> string -> bool) -> list string -> list string.
Hypothesis Hsorts : Sort.sorts sort_Sort.

Lemma getLatestVersionTag_bound (tagList : list string) (t : string) (v : Version) :
  (forall u, In u tagList -> validateVersionFormat u = None ->
             snd (CastToVersion u) = None) ->
  In t tagList -> CastToVersion t = (v, None) ->
  (forall u w, In u tagList -> CastToVersion u = (w, None) ->
               versionLeb w v = true) ->
  getLatestVersionTag sort_Sort tagList = (v, None).
Proof.
  intros Hrange Ht Hv Hbound.
  destruct (getLatestVersionTag_max sort_Sort Hsorts tagList)
    as (latest & v0 & Hin & E0 & Eg & Hmax).
  - exists t. split; [exact Ht | apply (CastToVersion_ok_passes t v Hv)].
  - exact Hrange.
  - rewrite Eg. f_equal.
    apply versionLeb_antisym; [apply (Hbound latest) | apply (Hmax t)];
      assumption.
Qed.
End SelectorFacts.

(** X9: when every version tag fits [int], a tag that parses to a
    version at least as great as every other parsed tag is the one
    [getLatestVersionTag] returns the version of. *)
Theorem getLatestVersionTag_upper_bound
    (sort_Sort : (string -> string -> bool) -> list string -> list string)
    (tagList : list string) (t : string) (v : Version) :
  Sort.sorts sort_Sort ->
  (forall u, In u tagList -> validateVersionFormat u = None ->
             snd (CastToVersion u) = None) ->
  In t tagList -> CastToVersion t = (v, None) ->
  (forall u w, In u tagList -> CastToVersion u = (w, None) ->
               versionLeb w v = true) ->
  getLatestVersionTag sort_Sort tagList = (v, None).
Proof. intros Hsorts. apply getLatestVersionTag_bound, Hsorts. Qed.

Lemma getLatestVersionTag_upper_bound_witness :
  getLatestVersionTag Sort.insertionSort ["v1.9.0"; "v1.10.0"; "v01.010.00"; "main"]
  = (mkVersion 1 10 0, None).
Proof.
  apply (getLatestVersionTag_upper_bound Sort.insertionSort _ "v1.10.0").
  - apply insertionSort_sorts.
  - intros u Hu Hv. simpl in Hu.
    repeat (destruct Hu as [<- | Hu];
            [first [reflexivity | vm_compute in Hv; discriminate Hv]|]).
    destruct Hu.
  - right. left. reflexivity.
  - reflexivity.
  - intros u w Hu Hw. simpl in Hu.
    repeat (destruct Hu as [<- | Hu];
            [vm_compute in Hw;
             first [discriminate Hw | injection Hw as <-; reflexivity]|]).
    destruct Hu.
Defined.

(** X10: when every version tag fits [int], the result of
    [getLatestVersionTag] depends only on which version tags the list
    holds: not on their order, on repetitions, or on the other tags. *)
Theorem getLatestVersionTag_same_version_tags
    (sort_Sort : (string -> string -> bool) -> list string -> list string)
    (l l' : list string) :
  Sort.sorts sort_Sort ->
  (forall t, In t l -> validateVersionFormat t = None ->
             snd (CastToVersion t) = None) ->
  (exists t, In t l /\ validateVersionFormat t = None) ->
  (forall t, validateVersionFormat t = None -> (In t l <-> In t l')) ->
  getLatestVersionTag sort_Sort l = getLatestVersionTag sort_Sort l'.
Proof.
  intros Hsorts Hrange (t0 & Ht0 & Hv0) Hsame.
  destruct (getLatestVersionTag_max sort_Sort Hsorts l)
    as (latest & v & Hin & Ev & Eg & Hmax); [eauto | exact Hrange |].
  rewrite Eg. symmetry.
  apply (getLatestVersionTag_bound sort_Sort Hsorts l' latest v).
  - intros u Hu Hv. apply Hrange; [apply (Hsame u Hv), Hu | exact Hv].
  - apply (Hsame latest (CastToVersion_ok_passes latest v Ev)), Hin.
  - exact Ev.
  - intros u w Hu Hw. apply (Hmax u w); [|exact Hw].
    apply (Hsame u (CastToVersion_ok_passes u w Hw)), Hu.
Qed.

Lemma getLatestVersionTag_same_version_tags_witness :
  getLatestVersionTag Sort.insertionSort ["v0.0.5"; "v0.0.25"]
  = getLatestVersionTag Sort.insertionSort
      ["HEAD"; "v0.0.25"; "main"; "v0.0.5"; "v0.0.25"].
Proof.
  apply getLatestVersionTag_same_version_tags.
  - apply insertionSort_sorts.
  - intros t [<- | [<- | []]] _; reflexivity.
  - exists "v0.0.5". split; [left; reflexivity | reflexivity].
  - intros t Hv. split; intros Ht; simpl in Ht |- *.
    + destruct Ht as [<- | [<- | []]]; auto 10.
    + repeat (destruct Ht as [<- | Ht];
              [first [now auto | vm_compute in Hv; discriminate Hv]|]).
      destruct Ht.
Defined.

Lemma insertionSort_permutes : permutes (@Sort.insertionSort string).
Proof.
  intros less l. unfold Sort.insertionSort.
  rewrite <- Permutation_rev, <- fold_sink_perm, app_nil_r. reflexivity.
Qed.

(** X11: if [sort.Sort] hands back the elements it was given,
    [getLatestVersionTag] ends in one of three ways: the valid version of
    one of the tags and no error; [ErrNoVersionTagsFound] when no tag
    passes the validator; or the range error of [strconv.Atoi] for a tag
    that passes it.  It never returns [ErrVersionFormat]. *)
Theorem getLatestVersionTag_outcomes
    (sort_Sort : (string -> string -> bool) -> list string -> list string)
    (tagList : list string) :
  permutes sort_Sort ->
  (exists t v, In t tagList /\ CastToVersion t = (v, None) /\ validVersion v /\
               getLatestVersionTag sort_Sort tagList = (v, None)) \/
  ((forall t, In t tagList -> validateVersionFormat t <> None) /\
   getLatestVersionTag sort_Sort tagList = (zeroVersion, Some ErrNoVersionTagsFound)) \/
  (exists t num, In t tagList /\ validateVersionFormat t = None /\
                 getLatestVersionTag sort_Sort tagList
                 = (zeroVersion, Some (NumError "Atoi" num ErrRange))).
Proof.
  intros Hperm. unfold getLatestVersionTag, natsort_Sort.
  change (fun t => match validateVersionFormat t with
                   | None => true
                   | Some _ => false
                   end) with passes.
  assert (Hin : forall t, In t (filter passes tagList) ->
                          In t tagList /\ validateVersionFormat t = None).
  { intros t Ht. apply filter_In in Ht as [Ht Hp].
    split; [exact Ht | apply passes_iff, Hp]. }
  destruct (filter passes tagList) as [|x xs] eqn:EL.
  - right. left. split; [|reflexivity].
    intros t Ht Hv.
    assert (Hf : In t (filter passes tagList))
      by (apply filter_In; split; [exact Ht | apply passes_iff, Hv]).
    rewrite EL in Hf. destruct Hf.
  - specialize (Hperm Natsort.Compare (x :: xs)).
    set (sorted := sort_Sort Natsort.Compare (x :: xs)) in *.
    assert (Hsne : sorted <> []).
    { intros E. rewrite E in Hperm. apply Permutation_sym in Hperm.
      apply Permutation_nil in Hperm. discriminate. }
    pose proof (app_removelast_last "" Hsne) as Elast.
    set (latest := last sorted "") in *.
    assert (Hlatest : In latest (x :: xs)).
    { apply (Permutation_in latest (Permutation_sym Hperm)).
      rewrite Elast. apply in_or_app. right. left. reflexivity. }
    apply Hin in Hlatest as [Hl Hv].
    destruct (CastToVersion_outcome latest)
      as [(v & E & Hvalid & _) | [(num & E & _) | [_ Hn]]].
    + left. exists latest, v. rewrite E. auto.
    + right. right. exists latest, num. rewrite E. auto.
    + elim Hn. apply validateVersionFormat_syntax, Hv.
Qed.

Lemma getLatestVersionTag_outcomes_witness :
  (exists t v, In t ["v1.0.0"; "v99999999999999999999.0.0"] /\
               CastToVersion t = (v, None) /\ validVersion v /\
               getLatestVersionTag Sort.insertionSort
                 ["v1.0.0"; "v99999999999999999999.0.0"] = (v, None)) \/
  ((forall t, In t ["v1.0.0"; "v99999999999999999999.0.0"] ->
              validateVersionFormat t <> None) /\
   getLatestVersionTag Sort.insertionSort ["v1.0.0"; "v99999999999999999999.0.0"]
   = (zeroVersion, Some ErrNoVersionTagsFound)) \/
  (exists t num, In t ["v1.0.0"; "v99999999999999999999.0.0"] /\
                 validateVersionFormat t = None /\
                 getLatestVersionTag Sort.insertionSort
                   ["v1.0.0"; "v99999999999999999999.0.0"]
                 = (zeroVersion, Some (NumError "Atoi" num ErrRange))).
Proof.
  apply getLatestVersionTag_outcomes, insertionSort_permutes.
Defined.

(* ----------------------------------------------------------------- *)
(** ** More on the publisher and the orchestration *)



(** X13: when HEAD cannot be resolved, [tag] returns that error wrapped
    and does not touch the repository; when the tag cannot be created, it
    returns that error wrapped and neither pushes nor deletes: the
    repository is as [CreateTag] left it. *)
Theorem tag_early_failures {R : Type} `{Repository R}
    (newTagVersion : Version) (w : World R) :
  let out :=
    (stdout w ++ [("new tag:  " ++ Version_String newTagVersion)%string])%list in
  (forall h err,
     repo_Head (repo w) = (h, Some err) ->
     tag newTagVersion w
     = (Some (withMessage err "unable to get HEAD from the opened repo"),
        mkWorld (repo w) out)) /\
  (forall h err r1,
     repo_Head (repo w) = (h, None) ->
     repo_CreateTag (repo w) (Version_String newTagVersion) (ref_Hash h)
     = (Some err, r1) ->
     tag newTagVersion w
     = (Some (withMessage err
                "unable to create tag from the repo head hash and newly created tag version number. tag may already exist locally."),
        mkWorld r1 out)).
Proof.
  intros out. split.
  - intros h err Hhead. io_unfold. rewrite Hhead. reflexivity.
  - intros h err r1 Hhead Hcreate. io_unfold.
    rewrite Hhead. io_simpl. rewrite Hcreate. reflexivity.
Qed.

Lemma tag_early_failures_witness :
  let detached :=
    mkScripted None [] None (Some (gitError "reference not found")) "" []
      None None None in
  let tagged :=
    mkScripted None [] None None "c0ffee" [("v5.5.6", "beef")] None None None in
  tag (mkVersion 5 5 6) (mkWorld detached [])
  = (Some (withMessage (gitError "reference not found")
             "unable to get HEAD from the opened repo"),
     mkWorld detached ["new tag:  v5.5.6"]) /\
  tag (mkVersion 5 5 6) (mkWorld tagged [])
  = (Some (withMessage (gitError "tag already exists")
             "unable to create tag from the repo head hash and newly created tag version number. tag may already exist locally."),
     mkWorld tagged ["new tag:  v5.5.6"]).
Proof.
  intros detached tagged. split.
  - exact (proj1 (tag_early_failures (mkVersion 5 5 6) (mkWorld detached []))
             ("HEAD", "") (gitError "reference not found") eq_refl).
  - exact (proj2 (tag_early_failures (mkVersion 5 5 6) (mkWorld tagged []))
             ("HEAD", "c0ffee") (gitError "tag already exists") tagged
             eq_refl eq_refl).
Defined.

Lemma incrementVersion_no_error (v : Version) (major minor : bool) :
  major && minor = false -> snd (incrementVersion v major minor) = None.
Proof.
  intros Hflags. unfold incrementVersion. rewrite Hflags.
  destruct major; [|destruct minor]; reflexivity.
Qed.

(** X14: when the remote lists tags, the selector finds a latest version
    and at most one flag is set, [BumpVersion] prints two lines and then
    does what [tag] does for the incremented version; its result is the
    result of that call. *)
Theorem BumpVersion_increments_latest {R : Type} `{Repository R}
    (sort_Sort : (string -> string -> bool) -> list string -> list string)
    (major minor : bool) (w : World R) (tagList : list string)
    (latest : Version) :
  getRemoteGitTags (repo w) = (tagList, None) ->
  getLatestVersionTag sort_Sort tagList = (latest, None) ->
  major && minor = false ->
  BumpVersion sort_Sort major minor w
  = tag (fst (incrementVersion latest major minor))
      (mkWorld (repo w)
         (stdout w ++
            [("latest version tag at remote:  " ++ Version_String latest)%string;
             ("version tag incremented from " ++ Version_String latest ++ " to "
                ++ Version_String (fst (incrementVersion latest major minor)))%string])%list).
Proof.
  intros Htags Hsel Hflags.
  pose proof (incrementVersion_no_error latest major minor Hflags) as Hinc.
  unfold BumpVersion, look. unfold bind at 1. rewrite Htags, Hsel.
  unfold bind at 1. unfold Println at 1.
  destruct (incrementVersion latest major minor) as [next [e|]];
    [discriminate Hinc|].
  unfold bind at 1. unfold Println at 1. cbn [repo stdout fst].
  rewrite <- app_assoc. apply tag_result_passed_on.
Qed.

Lemma BumpVersion_increments_latest_witness :
  let origin :=
    mkScripted None
      [("refs/heads/main", "main"); ("refs/tags/v5.5.5", "v5.5.5");
       ("refs/tags/v5.5.10", "v5.5.10")]
      None None "c0ffee" [] None None None in
  BumpVersion Sort.insertionSort false true (mkWorld origin [])
  = tag (mkVersion 5 6 0)
      (mkWorld origin
         ["latest version tag at remote:  v5.5.10";
          "version tag incremented from v5.5.10 to v5.6.0"]).
Proof.
  intros origin.
  exact (BumpVersion_increments_latest Sort.insertionSort false true
           (mkWorld origin []) ["main"; "v5.5.5"; "v5.5.10"] (mkVersion 5 5 10)
           eq_refl eq_refl eq_refl).
Defined.

(** X15: when the selector finds a latest version and both flags are
    set, [BumpVersion] returns [ErrCannotIncrementMajAndMin] as it is and
    publishes nothing: the repository is untouched and one line has been
    printed. *)
Theorem BumpVersion_both_flags {R : Type} `{Repository R}
    (sort_Sort : (string -> string -> bool) -> list string -> list string)
    (w : World R) (tagList : list string) (latest : Version) :
  getRemoteGitTags (repo w) = (tagList, None) ->
  getLatestVersionTag sort_Sort tagList = (latest, None) ->
  BumpVersion sort_Sort true true w
  = (Some ErrCannotIncrementMajAndMin,
     mkWorld (repo w)
       (stdout w ++
          [("latest version tag at remote:  " ++ Version_String latest)%string])%list).
Proof.
  intros Htags Hsel.
  unfold BumpVersion, look. unfold bind at 1. rewrite Htags, Hsel.
  reflexivity.
Qed.

Lemma BumpVersion_both_flags_witness :
  let origin :=
    mkScripted None [("refs/tags/v5.5.5", "v5.5.5")] None None "c0ffee" []
      None None None in
  BumpVersion Sort.insertionSort true true (mkWorld origin [])
  = (Some ErrCannotIncrementMajAndMin,
     mkWorld origin ["latest version tag at remote:  v5.5.5"]).
Proof.
  intros origin.
  exact (BumpVersion_both_flags Sort.insertionSort (mkWorld origin [])
           ["v5.5.5"] (mkVersion 5 5 5) eq_refl eq_refl).
Defined.

(** X16: [getRemoteGitTags] returns either an error and no names, or no
    error and at least one name, as many as the remote listed references;
    a failure to reach the remote or to list its references comes back
    wrapped with the step that failed. *)
Theorem getRemoteGitTags_names_or_error {R : Type} `{Repository R} (r : R) :
  (snd (getRemoteGitTags r) <> None -> fst (getRemoteGitTags r) = []) /\
  (snd (getRemoteGitTags r) = None ->
   exists remote refs,
     repo_Remote r "origin" = (remote, None) /\
     remote_List r remote = (refs, None) /\
     refs <> [] /\
     fst (getRemoteGitTags r) = map ref_Short refs /\
     List.length (fst (getRemoteGitTags r)) = List.length refs) /\
  (forall remote err,
     repo_Remote r "origin" = (remote, Some err) ->
     getRemoteGitTags r
     = ([], Some (withMessage err "unable to access remote repo"))) /\
  (forall remote refs err,
     repo_Remote r "origin" = (remote, None) ->
     remote_List r remote = (refs, Some err) ->
     getRemoteGitTags r
     = ([], Some (withMessage err "unable to list references from remote repo"))).
Proof.
  unfold getRemoteGitTags.
  destruct (repo_Remote r "origin") as [remote [e|]] eqn:Hremote.
  - cbn [fst snd Wrap]. split; [reflexivity|].
    split; [discriminate|]. split.
    + intros remote' err E. injection E as _ <-. reflexivity.
    + intros remote' refs err E. discriminate E.
  - destruct (remote_List r remote) as [refs [e|]] eqn:Hlist.
    + cbn [fst snd Wrap]. split; [reflexivity|].
      split; [discriminate|]. split.
      * intros remote' err E. discriminate E.
      * intros remote' refs' err E Hl. injection E as <-.
        rewrite Hlist in Hl. injection Hl as _ <-. reflexivity.
    + split; [|split; [|split]].
      * destruct refs; cbn [fst snd]; [reflexivity | intros Hn; contradiction].
      * destruct refs as [|ref refs]; cbn [fst snd]; [discriminate|].
        intros _. exists remote, (ref :: refs).
        split; [reflexivity|]. split; [exact Hlist|].
        split; [discriminate|]. split; [reflexivity|].
        apply length_map.
      * intros remote' err E. discriminate E.
      * intros remote' refs' err E Hl. injection E as <-.
        rewrite Hlist in Hl. discriminate Hl.
Qed.

Lemma getRemoteGitTags_names_or_error_witness :
  let offline :=
    mkScripted None [("refs/tags/v1.0.0", "v1.0.0")]
      (Some (gitError "connection refused")) None "c0ffee" [] None None None in
  let unconfigured :=
    mkScripted (Some (gitError "remote not found")) [] None None "c0ffee" []
      None None None in
  getRemoteGitTags offline
  = ([], Some (withMessage (gitError "connection refused")
                 "unable to list references from remote repo")) /\
  getRemoteGitTags unconfigured
  = ([], Some (withMessage (gitError "remote not found")
                 "unable to access remote repo")).
Proof.
  intros offline unconfigured. split.
  - exact (proj2 (proj2 (proj2 (getRemoteGitTags_names_or_error offline)))
             tt [] (gitError "connection refused") eq_refl eq_refl).
  - exact (proj1 (proj2 (proj2 (getRemoteGitTags_names_or_error unconfigured)))
             tt (gitError "remote not found") eq_refl).
Defined.

(** X17: [BumpVersion] changes the repository through one call of [tag]
    at most.  Either it fails before publishing, with the repository
    untouched, or its result is that of [tag] on the zero version or on the
    increment, with at most one flag set, of the version the selector
    returned. *)
Theorem BumpVersion_fails_early_or_tags {R : Type} `{Repository R}
    (sort_Sort : (string -> string -> bool) -> list string -> list string)
    (major minor : bool) (w : World R) :
  (exists err out,
     BumpVersion sort_Sort major minor w = (Some err, mkWorld (repo w) out)) \/
  (exists version out,
     BumpVersion sort_Sort major minor w = tag version (mkWorld (repo w) out) /\
     (version = zeroVersion \/
      exists tagList latest,
        getRemoteGitTags (repo w) = (tagList, None) /\
        getLatestVersionTag sort_Sort tagList = (latest, None) /\
        major && minor = false /\
        version = fst (incrementVersion latest major minor))).
Proof.
  destruct (getRemoteGitTags (repo w)) as [tagList [e|]] eqn:Htags.
  - left. exists (withMessage e "Unable to get remote git tags from the repo"),
      (stdout w).
    unfold BumpVersion, look, bind, ret. rewrite Htags.
    destruct w; reflexivity.
  - destruct (getLatestVersionTag sort_Sort tagList) as [latest [e|]] eqn:Hsel.
    + destruct (error_eq_dec e ErrNoVersionTagsFound) as [->|Hne].
      * right. exists zeroVersion. eexists. split; [|left; reflexivity].
        apply (BumpVersion_bootstrap sort_Sort major minor w tagList latest);
          assumption.
      * left.
        exists (withMessage e "unable to get latest version tag from the tag list"),
          (stdout w).
        unfold BumpVersion, look, bind, ret. rewrite Htags, Hsel.
        destruct (error_eq_dec e ErrNoVersionTagsFound); [contradiction|].
        destruct w; reflexivity.
    + destruct (major && minor) eqn:Hflags.
      * left. apply andb_true_iff in Hflags as [-> ->].
        exists ErrCannotIncrementMajAndMin. eexists.
        unfold BumpVersion, look. unfold bind at 1. rewrite Htags, Hsel.
        reflexivity.
      * right. exists (fst (incrementVersion latest major minor)).
        exists ((stdout w ++
                   [("latest version tag at remote:  "
                       ++ Version_String latest)%string]) ++
                [("version tag incremented from " ++ Version_String latest
                    ++ " to "
                    ++ Version_String (fst (incrementVersion latest major minor)))%string])%list.
        split; [|right; exists tagList, latest; auto].
        pose proof (incrementVersion_no_error latest major minor Hflags) as Hinc.
        unfold BumpVersion, look. unfold bind at 1. rewrite Htags, Hsel.
        unfold bind at 1. unfold Println at 1.
        destruct (incrementVersion latest major minor) as [next [e|]];
          [discriminate Hinc|].
        unfold bind at 1. unfold Println at 1. cbn [repo stdout fst].
        apply tag_result_passed_on.
Qed.

(* ----------------------------------------------------------------- *)
(** ** Incrementing the largest [int] *)

Lemma Version_String_rejected (v : Version) :
  majorRelease v < 0 \/ minorRelease v < 0 \/ bugFixRelease v < 0 ->
  validateVersionFormat (Version_String v) = Some ErrVersionFormat.
Proof.
  intros Hneg.
  destruct (validateVersionFormat (Version_String v)) as [e|] eqn:Hv.
  - unfold validateVersionFormat in Hv.
    destruct (negb (MatchString versionPattern (Version_String v)));
      [symmetry; exact Hv | discriminate].
  - exfalso.
    apply validateVersionFormat_syntax, VersionSyntax_no_minus in Hv.
    unfold Version_String in Hv.
    change (hasChar "-"
              (String "v" (fmtInteger (majorRelease v) ++
                 String "." (fmtInteger (minorRelease v) ++
                   String "." (fmtInteger (bugFixRelease v))))) = false) in Hv.
    cbn [hasChar] in Hv. rewrite hasChar_app in Hv. cbn [hasChar] in Hv.
    rewrite hasChar_app in Hv. cbn [hasChar] in Hv.
    apply orb_false_iff in Hv as [_ Hv].
    apply orb_false_iff in Hv as [H1 Hv].
    apply orb_false_iff in Hv as [_ Hv].
    apply orb_false_iff in Hv as [H2 Hv].
    apply orb_false_iff in Hv as [_ H3].
    destruct Hneg as [Hn | [Hn | Hn]];
      apply fmtInteger_negative in Hn; congruence.
Qed.

(** X18: when the component to increment is the largest [int] and at
    most one flag is set, [incrementVersion] returns no error, the
    component wraps to the smallest [int], and the name of the version it
    returns does not pass [validateVersionFormat]. *)
Theorem incrementVersion_overflow (v : Version) (major minor : bool) :
  major && minor = false ->
  bumped v major minor = maxInt ->
  snd (incrementVersion v major minor) = None /\
  bumped (fst (incrementVersion v major minor)) major minor = minInt /\
  validateVersionFormat (Version_String (fst (incrementVersion v major minor)))
  = Some ErrVersionFormat.
Proof.
  intros Hflags Hb.
  assert (Hwrap : wrap (maxInt + 1) = minInt) by reflexivity.
  unfold incrementVersion. rewrite Hflags. unfold bumped in *.
  destruct major; [|destruct minor];
    unfold incrementMajor, incrementMinor, incrementBugFix;
    cbn [fst snd majorRelease minorRelease bugFixRelease];
    rewrite Hb, Hwrap;
    (split; [reflexivity | split; [reflexivity|]]);
    apply Version_String_rejected;
    cbn [majorRelease minorRelease bugFixRelease];
    rewrite minInt_value; lia.
Qed.

Lemma incrementVersion_overflow_witness :
  validateVersionFormat
    (Version_String (fst (incrementVersion (mkVersion 1 maxInt 7) false true)))
  = Some ErrVersionFormat.
Proof.
  apply (incrementVersion_overflow (mkVersion 1 maxInt 7) false true);
    reflexivity.
Defined.
